(** * Fake Store product listing: the filter/sort engine of [Box.tsx]

    A shallow embedding of [src/screens/Box/Box.tsx]: the [Product] data
    model, the React state of the [Box] component, its two effects (the
    catalog loader and the filter/sort pass), and the [handleFilterChange]
    and [handleReset] callbacks, together with the fragments of the
    ECMAScript built-ins the component calls ([String.prototype.replace],
    [split], [includes], [toLowerCase], [Number], [parseInt],
    [Array.prototype.filter], [some], [includes] and [sort]). *)

From Stdlib Require Import Ascii String QArith Qcanon.
From stdpp Require Import base decidable option numbers list sorting strings gmap.

Local Open Scope string_scope.

(** ** ECMAScript numbers

    A JavaScript number is a binary64 value.  The component only ever
    compares numbers ([>=], [<=]) and looks at the sign of a difference
    (inside the [sort] comparators), and both operations are determined by
    the exact real value of their finite operands.  A number is therefore
    modelled by its exact value: a rational when it is finite, or one of
    the three special values.  Negative zero is identified with zero
    (no operation of the component distinguishes them), and the rounding
    of a decimal literal to the nearest binary64 is not applied: [Number]
    and [parseInt] below return the mathematical value of the literal. *)
Module JS.

Inductive number : Type :=
  | NaN
  | NegInfinity
  | Finite (q : Qc)
  | PosInfinity.

#[global] Instance number_eq_dec : EqDecision number.
Proof. solve_decision. Defined.

Definition ofZ (z : Z) : number := Finite (Qc_of_Z z).

(** [IsLessThan(x, y)] on numbers: [None] is the "undefined" answer given
    as soon as one operand is NaN. *)
Definition isLessThan (x y : number) : option bool :=
  match x, y with
  | NaN, _ | _, NaN => None
  | PosInfinity, _ => Some false
  | _, PosInfinity => Some true
  | _, NegInfinity => Some false
  | NegInfinity, _ => Some true
  | Finite a, Finite b => Some (bool_decide (a < b)%Qc)
  end.

(** [x < y], [x > y], [x <= y], [x >= y] as the relational operators define
    them from [IsLessThan]: an undefined comparison is [false]. *)
Definition lt (x y : number) : bool :=
  match isLessThan x y with Some b => b | None => false end.
Definition gt (x y : number) : bool :=
  match isLessThan y x with Some b => b | None => false end.
Definition le (x y : number) : bool :=
  match isLessThan y x with Some b => negb b | None => false end.
Definition ge (x y : number) : bool :=
  match isLessThan x y with Some b => negb b | None => false end.

(** [x - y].  Only the sign of a difference is observed by the component;
    the exact difference of two finite operands has the sign of the
    rounded one. *)
Definition sub (x y : number) : number :=
  match x, y with
  | NaN, _ | _, NaN => NaN
  | PosInfinity, PosInfinity => NaN
  | NegInfinity, NegInfinity => NaN
  | PosInfinity, _ => PosInfinity
  | NegInfinity, _ => NegInfinity
  | Finite _, PosInfinity => NegInfinity
  | Finite _, NegInfinity => PosInfinity
  | Finite a, Finite b => Finite (a - b)%Qc
  end.

(** [ToNumber] of an array slot that may be missing: [undefined] becomes
    NaN. *)
Definition toNumber (v : option number) : number := default NaN v.

(** ** ECMAScript strings

    A string is a sequence of UTF-16 code units.  The titles of the
    products and what is typed in the search box are arbitrary text and
    are modelled as such: a [text] is the list of the code units, each an
    [N].  The tokens the component parses are kept as [string]s, one
    [ascii] a code unit below U+0100, and [ofLatin1] is the text such a
    string stands for. *)

Definition code (c : ascii) : N := N_of_ascii c.

Definition text : Type := list N.

#[global] Instance text_eq_dec : EqDecision text.
Proof. unfold text. apply _. Defined.

Definition ofLatin1 (s : string) : text := code <$> list_ascii_of_string s.

(** Is [p] a prefix of [s]? *)
Fixpoint hasPrefix (s p : text) {struct p} : bool :=
  match p, s with
  | [], _ => true
  | _ :: _, [] => false
  | a :: p', b :: s' => (a =? b)%N && hasPrefix s' p'
  end.

(** [String.prototype.includes(searchString)] from position 0: a
    comparison of code units. *)
Fixpoint includes (s t : text) : bool :=
  hasPrefix s t ||
  match s with
  | [] => false
  | _ :: s' => includes s' t
  end.

(** *** Case conversion

    [String.prototype.toLowerCase] reads the string as code points and
    lowers them by the default case conversion of the Unicode standard:
    each code point goes to its simple lower-case mapping, but U+0130,
    which becomes U+0069 U+0307, and U+03A3, which becomes U+03C2 in the
    Final_Sigma context and U+03C3 elsewhere.  No mapping depends on the
    locale.  The tables are those of the Unicode character database,
    version 14.0. *)

(** The simple lower-case mappings, in runs: [(first, last, step, to)]
    sends [first], [first + step], ..., up to [last], to [to],
    [to + step], ... *)
Definition lowerTable : list (N * N * N * N) :=
  [
   (65, 90, 1, 97); (192, 214, 1, 224); (216, 222, 1, 248); (256, 302, 2, 257);
   (306, 310, 2, 307); (313, 327, 2, 314); (330, 374, 2, 331); (376, 376, 1, 255);
   (377, 381, 2, 378); (385, 385, 1, 595); (386, 388, 2, 387); (390, 390, 1, 596);
   (391, 391, 1, 392); (393, 394, 1, 598); (395, 395, 1, 396); (398, 398, 1, 477);
   (399, 399, 1, 601); (400, 400, 1, 603); (401, 401, 1, 402); (403, 403, 1, 608);
   (404, 404, 1, 611); (406, 406, 1, 617); (407, 407, 1, 616); (408, 408, 1, 409);
   (412, 412, 1, 623); (413, 413, 1, 626); (415, 415, 1, 629); (416, 420, 2, 417);
   (422, 422, 1, 640); (423, 423, 1, 424); (425, 425, 1, 643); (428, 428, 1, 429);
   (430, 430, 1, 648); (431, 431, 1, 432); (433, 434, 1, 650); (435, 437, 2, 436);
   (439, 439, 1, 658); (440, 440, 1, 441); (444, 444, 1, 445); (452, 452, 1, 454);
   (453, 453, 1, 454); (455, 455, 1, 457); (456, 456, 1, 457); (458, 458, 1, 460);
   (459, 475, 2, 460); (478, 494, 2, 479); (497, 497, 1, 499); (498, 500, 2, 499);
   (502, 502, 1, 405); (503, 503, 1, 447); (504, 542, 2, 505); (544, 544, 1, 414);
   (546, 562, 2, 547); (570, 570, 1, 11365); (571, 571, 1, 572); (573, 573, 1, 410);
   (574, 574, 1, 11366); (577, 577, 1, 578); (579, 579, 1, 384); (580, 580, 1, 649);
   (581, 581, 1, 652); (582, 590, 2, 583); (880, 882, 2, 881); (886, 886, 1, 887);
   (895, 895, 1, 1011); (902, 902, 1, 940); (904, 906, 1, 941); (908, 908, 1, 972);
   (910, 911, 1, 973); (913, 929, 1, 945); (931, 939, 1, 963); (975, 975, 1, 983);
   (984, 1006, 2, 985); (1012, 1012, 1, 952); (1015, 1015, 1, 1016); (1017, 1017, 1, 1010);
   (1018, 1018, 1, 1019); (1021, 1023, 1, 891); (1024, 1039, 1, 1104); (1040, 1071, 1, 1072);
   (1120, 1152, 2, 1121); (1162, 1214, 2, 1163); (1216, 1216, 1, 1231); (1217, 1229, 2, 1218);
   (1232, 1326, 2, 1233); (1329, 1366, 1, 1377); (4256, 4293, 1, 11520); (4295, 4295, 1, 11559);
   (4301, 4301, 1, 11565); (5024, 5103, 1, 43888); (5104, 5109, 1, 5112); (7312, 7354, 1, 4304);
   (7357, 7359, 1, 4349); (7680, 7828, 2, 7681); (7838, 7838, 1, 223); (7840, 7934, 2, 7841);
   (7944, 7951, 1, 7936); (7960, 7965, 1, 7952); (7976, 7983, 1, 7968); (7992, 7999, 1, 7984);
   (8008, 8013, 1, 8000); (8025, 8031, 2, 8017); (8040, 8047, 1, 8032); (8072, 8079, 1, 8064);
   (8088, 8095, 1, 8080); (8104, 8111, 1, 8096); (8120, 8121, 1, 8112); (8122, 8123, 1, 8048);
   (8124, 8124, 1, 8115); (8136, 8139, 1, 8050); (8140, 8140, 1, 8131); (8152, 8153, 1, 8144);
   (8154, 8155, 1, 8054); (8168, 8169, 1, 8160); (8170, 8171, 1, 8058); (8172, 8172, 1, 8165);
   (8184, 8185, 1, 8056); (8186, 8187, 1, 8060); (8188, 8188, 1, 8179); (8486, 8486, 1, 969);
   (8490, 8490, 1, 107); (8491, 8491, 1, 229); (8498, 8498, 1, 8526); (8544, 8559, 1, 8560);
   (8579, 8579, 1, 8580); (9398, 9423, 1, 9424); (11264, 11311, 1, 11312); (11360, 11360, 1, 11361);
   (11362, 11362, 1, 619); (11363, 11363, 1, 7549); (11364, 11364, 1, 637); (11367, 11371, 2, 11368);
   (11373, 11373, 1, 593); (11374, 11374, 1, 625); (11375, 11375, 1, 592); (11376, 11376, 1, 594);
   (11378, 11378, 1, 11379); (11381, 11381, 1, 11382); (11390, 11391, 1, 575); (11392, 11490, 2, 11393);
   (11499, 11501, 2, 11500); (11506, 11506, 1, 11507); (42560, 42604, 2, 42561); (42624, 42650, 2, 42625);
   (42786, 42798, 2, 42787); (42802, 42862, 2, 42803); (42873, 42875, 2, 42874); (42877, 42877, 1, 7545);
   (42878, 42886, 2, 42879); (42891, 42891, 1, 42892); (42893, 42893, 1, 613); (42896, 42898, 2, 42897);
   (42902, 42920, 2, 42903); (42922, 42922, 1, 614); (42923, 42923, 1, 604); (42924, 42924, 1, 609);
   (42925, 42925, 1, 620); (42926, 42926, 1, 618); (42928, 42928, 1, 670); (42929, 42929, 1, 647);
   (42930, 42930, 1, 669); (42931, 42931, 1, 43859); (42932, 42946, 2, 42933); (42948, 42948, 1, 42900);
   (42949, 42949, 1, 642); (42950, 42950, 1, 7566); (42951, 42953, 2, 42952); (42960, 42960, 1, 42961);
   (42966, 42968, 2, 42967); (42997, 42997, 1, 42998); (65313, 65338, 1, 65345); (66560, 66599, 1, 66600);
   (66736, 66771, 1, 66776); (66928, 66938, 1, 66967); (66940, 66954, 1, 66979); (66956, 66962, 1, 66995);
   (66964, 66965, 1, 67003); (68736, 68786, 1, 68800); (71840, 71871, 1, 71872); (93760, 93791, 1, 93792);
   (125184, 125217, 1, 125218)
  ]%N.

(** The code points with the property Case_Ignorable, in ranges. *)
Definition caseIgnorableRanges : list (N * N) :=
  [
   (39, 39); (46, 46); (58, 58); (94, 94); (96, 96); (168, 168);
   (173, 173); (175, 175); (180, 180); (183, 184); (688, 879); (884, 885);
   (890, 890); (900, 901); (903, 903); (1155, 1161); (1369, 1369); (1375, 1375);
   (1425, 1469); (1471, 1471); (1473, 1474); (1476, 1477); (1479, 1479); (1524, 1524);
   (1536, 1541); (1552, 1562); (1564, 1564); (1600, 1600); (1611, 1631); (1648, 1648);
   (1750, 1757); (1759, 1768); (1770, 1773); (1807, 1807); (1809, 1809); (1840, 1866);
   (1958, 1968); (2027, 2037); (2042, 2042); (2045, 2045); (2070, 2093); (2137, 2139);
   (2184, 2184); (2192, 2193); (2200, 2207); (2249, 2306); (2362, 2362); (2364, 2364);
   (2369, 2376); (2381, 2381); (2385, 2391); (2402, 2403); (2417, 2417); (2433, 2433);
   (2492, 2492); (2497, 2500); (2509, 2509); (2530, 2531); (2558, 2558); (2561, 2562);
   (2620, 2620); (2625, 2626); (2631, 2632); (2635, 2637); (2641, 2641); (2672, 2673);
   (2677, 2677); (2689, 2690); (2748, 2748); (2753, 2757); (2759, 2760); (2765, 2765);
   (2786, 2787); (2810, 2815); (2817, 2817); (2876, 2876); (2879, 2879); (2881, 2884);
   (2893, 2893); (2901, 2902); (2914, 2915); (2946, 2946); (3008, 3008); (3021, 3021);
   (3072, 3072); (3076, 3076); (3132, 3132); (3134, 3136); (3142, 3144); (3146, 3149);
   (3157, 3158); (3170, 3171); (3201, 3201); (3260, 3260); (3263, 3263); (3270, 3270);
   (3276, 3277); (3298, 3299); (3328, 3329); (3387, 3388); (3393, 3396); (3405, 3405);
   (3426, 3427); (3457, 3457); (3530, 3530); (3538, 3540); (3542, 3542); (3633, 3633);
   (3636, 3642); (3654, 3662); (3761, 3761); (3764, 3772); (3782, 3782); (3784, 3789);
   (3864, 3865); (3893, 3893); (3895, 3895); (3897, 3897); (3953, 3966); (3968, 3972);
   (3974, 3975); (3981, 3991); (3993, 4028); (4038, 4038); (4141, 4144); (4146, 4151);
   (4153, 4154); (4157, 4158); (4184, 4185); (4190, 4192); (4209, 4212); (4226, 4226);
   (4229, 4230); (4237, 4237); (4253, 4253); (4348, 4348); (4957, 4959); (5906, 5908);
   (5938, 5939); (5970, 5971); (6002, 6003); (6068, 6069); (6071, 6077); (6086, 6086);
   (6089, 6099); (6103, 6103); (6109, 6109); (6155, 6159); (6211, 6211); (6277, 6278);
   (6313, 6313); (6432, 6434); (6439, 6440); (6450, 6450); (6457, 6459); (6679, 6680);
   (6683, 6683); (6742, 6742); (6744, 6750); (6752, 6752); (6754, 6754); (6757, 6764);
   (6771, 6780); (6783, 6783); (6823, 6823); (6832, 6862); (6912, 6915); (6964, 6964);
   (6966, 6970); (6972, 6972); (6978, 6978); (7019, 7027); (7040, 7041); (7074, 7077);
   (7080, 7081); (7083, 7085); (7142, 7142); (7144, 7145); (7149, 7149); (7151, 7153);
   (7212, 7219); (7222, 7223); (7288, 7293); (7376, 7378); (7380, 7392); (7394, 7400);
   (7405, 7405); (7412, 7412); (7416, 7417); (7468, 7530); (7544, 7544); (7579, 7679);
   (8125, 8125); (8127, 8129); (8141, 8143); (8157, 8159); (8173, 8175); (8189, 8190);
   (8203, 8207); (8216, 8217); (8228, 8228); (8231, 8231); (8234, 8238); (8288, 8292);
   (8294, 8303); (8305, 8305); (8319, 8319); (8336, 8348); (8400, 8432); (11388, 11389);
   (11503, 11505); (11631, 11631); (11647, 11647); (11744, 11775); (11823, 11823); (12293, 12293);
   (12330, 12333); (12337, 12341); (12347, 12347); (12441, 12446); (12540, 12542); (40981, 40981);
   (42232, 42237); (42508, 42508); (42607, 42610); (42612, 42621); (42623, 42623); (42652, 42655);
   (42736, 42737); (42752, 42785); (42864, 42864); (42888, 42890); (42994, 42996); (43000, 43001);
   (43010, 43010); (43014, 43014); (43019, 43019); (43045, 43046); (43052, 43052); (43204, 43205);
   (43232, 43249); (43263, 43263); (43302, 43309); (43335, 43345); (43392, 43394); (43443, 43443);
   (43446, 43449); (43452, 43453); (43471, 43471); (43493, 43494); (43561, 43566); (43569, 43570);
   (43573, 43574); (43587, 43587); (43596, 43596); (43632, 43632); (43644, 43644); (43696, 43696);
   (43698, 43700); (43703, 43704); (43710, 43711); (43713, 43713); (43741, 43741); (43756, 43757);
   (43763, 43764); (43766, 43766); (43867, 43871); (43881, 43883); (44005, 44005); (44008, 44008);
   (44013, 44013); (64286, 64286); (64434, 64450); (65024, 65039); (65043, 65043); (65056, 65071);
   (65106, 65106); (65109, 65109); (65279, 65279); (65287, 65287); (65294, 65294); (65306, 65306);
   (65342, 65342); (65344, 65344); (65392, 65392); (65438, 65439); (65507, 65507); (65529, 65531);
   (66045, 66045); (66272, 66272); (66422, 66426); (67456, 67461); (67463, 67504); (67506, 67514);
   (68097, 68099); (68101, 68102); (68108, 68111); (68152, 68154); (68159, 68159); (68325, 68326);
   (68900, 68903); (69291, 69292); (69446, 69456); (69506, 69509); (69633, 69633); (69688, 69702);
   (69744, 69744); (69747, 69748); (69759, 69761); (69811, 69814); (69817, 69818); (69821, 69821);
   (69826, 69826); (69837, 69837); (69888, 69890); (69927, 69931); (69933, 69940); (70003, 70003);
   (70016, 70017); (70070, 70078); (70089, 70092); (70095, 70095); (70191, 70193); (70196, 70196);
   (70198, 70199); (70206, 70206); (70367, 70367); (70371, 70378); (70400, 70401); (70459, 70460);
   (70464, 70464); (70502, 70508); (70512, 70516); (70712, 70719); (70722, 70724); (70726, 70726);
   (70750, 70750); (70835, 70840); (70842, 70842); (70847, 70848); (70850, 70851); (71090, 71093);
   (71100, 71101); (71103, 71104); (71132, 71133); (71219, 71226); (71229, 71229); (71231, 71232);
   (71339, 71339); (71341, 71341); (71344, 71349); (71351, 71351); (71453, 71455); (71458, 71461);
   (71463, 71467); (71727, 71735); (71737, 71738); (71995, 71996); (71998, 71998); (72003, 72003);
   (72148, 72151); (72154, 72155); (72160, 72160); (72193, 72202); (72243, 72248); (72251, 72254);
   (72263, 72263); (72273, 72278); (72281, 72283); (72330, 72342); (72344, 72345); (72752, 72758);
   (72760, 72765); (72767, 72767); (72850, 72871); (72874, 72880); (72882, 72883); (72885, 72886);
   (73009, 73014); (73018, 73018); (73020, 73021); (73023, 73029); (73031, 73031); (73104, 73105);
   (73109, 73109); (73111, 73111); (73459, 73460); (78896, 78904); (92912, 92916); (92976, 92982);
   (92992, 92995); (94031, 94031); (94095, 94111); (94176, 94177); (94179, 94180); (110576, 110579);
   (110581, 110587); (110589, 110590); (113821, 113822); (113824, 113827); (118528, 118573); (118576, 118598);
   (119143, 119145); (119155, 119170); (119173, 119179); (119210, 119213); (119362, 119364); (121344, 121398);
   (121403, 121452); (121461, 121461); (121476, 121476); (121499, 121503); (121505, 121519); (122880, 122886);
   (122888, 122904); (122907, 122913); (122915, 122916); (122918, 122922); (123184, 123197); (123566, 123566);
   (123628, 123631); (125136, 125142); (125252, 125259); (127995, 127999); (917505, 917505); (917536, 917631);
   (917760, 917999)
  ]%N.

(** The code points with the property Cased that are not Case_Ignorable,
    in ranges. *)
Definition casedRanges : list (N * N) :=
  [
   (65, 90); (97, 122); (170, 170); (181, 181); (186, 186); (192, 214);
   (216, 246); (248, 442); (444, 447); (452, 659); (661, 687); (880, 883);
   (886, 887); (891, 893); (895, 895); (902, 902); (904, 906); (908, 908);
   (910, 929); (931, 1013); (1015, 1153); (1162, 1327); (1329, 1366); (1376, 1416);
   (4256, 4293); (4295, 4295); (4301, 4301); (4304, 4346); (4349, 4351); (5024, 5109);
   (5112, 5117); (7296, 7304); (7312, 7354); (7357, 7359); (7424, 7467); (7531, 7543);
   (7545, 7578); (7680, 7957); (7960, 7965); (7968, 8005); (8008, 8013); (8016, 8023);
   (8025, 8025); (8027, 8027); (8029, 8029); (8031, 8061); (8064, 8116); (8118, 8124);
   (8126, 8126); (8130, 8132); (8134, 8140); (8144, 8147); (8150, 8155); (8160, 8172);
   (8178, 8180); (8182, 8188); (8450, 8450); (8455, 8455); (8458, 8467); (8469, 8469);
   (8473, 8477); (8484, 8484); (8486, 8486); (8488, 8488); (8490, 8493); (8495, 8500);
   (8505, 8505); (8508, 8511); (8517, 8521); (8526, 8526); (8544, 8575); (8579, 8580);
   (9398, 9449); (11264, 11387); (11390, 11492); (11499, 11502); (11506, 11507); (11520, 11557);
   (11559, 11559); (11565, 11565); (42560, 42605); (42624, 42651); (42786, 42863); (42865, 42887);
   (42891, 42894); (42896, 42954); (42960, 42961); (42963, 42963); (42965, 42969); (42997, 42998);
   (43002, 43002); (43824, 43866); (43872, 43880); (43888, 43967); (64256, 64262); (64275, 64279);
   (65313, 65338); (65345, 65370); (66560, 66639); (66736, 66771); (66776, 66811); (66928, 66938);
   (66940, 66954); (66956, 66962); (66964, 66965); (66967, 66977); (66979, 66993); (66995, 67001);
   (67003, 67004); (68736, 68786); (68800, 68850); (71840, 71903); (93760, 93823); (119808, 119892);
   (119894, 119964); (119966, 119967); (119970, 119970); (119973, 119974); (119977, 119980); (119982, 119993);
   (119995, 119995); (119997, 120003); (120005, 120069); (120071, 120074); (120077, 120084); (120086, 120092);
   (120094, 120121); (120123, 120126); (120128, 120132); (120134, 120134); (120138, 120144); (120146, 120485);
   (120488, 120512); (120514, 120538); (120540, 120570); (120572, 120596); (120598, 120628); (120630, 120654);
   (120656, 120686); (120688, 120712); (120714, 120744); (120746, 120770); (120772, 120779); (122624, 122633);
   (122635, 122654); (125184, 125251); (127280, 127305); (127312, 127337); (127344, 127369)
  ]%N.

Definition inRange (c : N) (r : N * N) : bool :=
  ((r.1 <=? c) && (c <=? r.2))%N.

Definition isCaseIgnorable (c : N) : bool := existsb (inRange c) caseIgnorableRanges.
Definition isCasedLetter (c : N) : bool := existsb (inRange c) casedRanges.

Definition inRun (c : N) (r : N * N * N * N) : bool :=
  let '(first, last, step, _) := r in
  ((first <=? c) && (c <=? last) && ((c - first) mod step =? 0))%N.

(** The simple lower-case mapping of a code point (itself when it has
    none). *)
Definition simpleLower (c : N) : N :=
  match List.find (inRun c) lowerTable with
  | Some (first, _, _, to) => (to + (c - first))%N
  | None => c
  end.

(** Going away from a code point, over those that are Case_Ignorable: is
    the first one that is not a cased letter?  (The test engines make in
    both directions for Final_Sigma.) *)
Fixpoint meetsCasedLetter (l : list N) : bool :=
  match l with
  | [] => false
  | c :: l' => if isCaseIgnorable c then meetsCasedLetter l' else isCasedLetter c
  end.

(** Final_Sigma: a cased letter before, none after.  [before] is what
    precedes, nearest first; [after] what follows. *)
Definition finalSigma (before after : list N) : bool :=
  meetsCasedLetter before && negb (meetsCasedLetter after).

Definition lowerCodePoint (before : list N) (c : N) (after : list N) : list N :=
  if (c =? 0x3A3)%N then (if finalSigma before after then [0x3C2] else [0x3C3])%N
  else if (c =? 0x130)%N then [0x69; 0x307]%N
  else [simpleLower c].

Fixpoint lowerCodePoints (before after : list N) : list N :=
  match after with
  | [] => []
  | c :: rest => lowerCodePoint before c rest ++ lowerCodePoints (c :: before) rest
  end.

Definition isLeadSurrogate (u : N) : bool := ((0xD800 <=? u) && (u <=? 0xDBFF))%N.
Definition isTrailSurrogate (u : N) : bool := ((0xDC00 <=? u) && (u <=? 0xDFFF))%N.

(** [StringToCodePoints]: a lead surrogate and the trail surrogate after
    it are one code point, any other code unit is one by itself. *)
Fixpoint codePoints (s : text) : list N :=
  match s with
  | [] => []
  | u :: s' =>
      match s' with
      | v :: s'' =>
          if isLeadSurrogate u && isTrailSurrogate v
          then (0x10000 + (u - 0xD800) * 0x400 + (v - 0xDC00))%N :: codePoints s''
          else u :: codePoints s'
      | [] => [u]
      end
  end.

(** [CodePointsToString] on one code point. *)
Definition codeUnits (c : N) : text :=
  if (c <? 0x10000)%N then [c]
  else [0xD800 + (c - 0x10000) / 0x400; 0xDC00 + (c - 0x10000) mod 0x400]%N.

Definition toLowerCase (s : text) : text :=
  flat_map codeUnits (lowerCodePoints [] (codePoints s)).

(** [startsWith] on the strings of tokens: is [p] a prefix of [s]? *)
Fixpoint startsWith (s p : string) {struct p} : bool :=
  match p, s with
  | EmptyString, _ => true
  | String _ _, EmptyString => false
  | String a p', String b s' => bool_decide (a = b) && startsWith s' p'
  end.

Fixpoint drop (n : nat) (s : string) : string :=
  match n, s with
  | O, _ => s
  | S _, EmptyString => EmptyString
  | S n', String _ s' => drop n' s'
  end.

(** [String.prototype.replace(pattern, replacement)] with a string
    pattern: only the first occurrence is replaced.  The replacement is
    taken literally (the component passes the empty string). *)
Fixpoint replace (s pat rep : string) : string :=
  if startsWith s pat then rep +:+ drop (String.length pat) s
  else match s with
       | EmptyString => EmptyString
       | String c s' => String c (replace s' pat rep)
       end.

(** [String.prototype.split(separator)] with a string separator and no
    limit.  [splitAux] scans the subject once: [acc] is the piece being
    read, reversed, and [skip] counts the code units of a matched
    separator that are still to be passed over. *)
Fixpoint splitAux (s sep acc : string) (skip : nat) : list string :=
  match s with
  | EmptyString => [String.rev acc]
  | String c s' =>
      match skip with
      | S k => splitAux s' sep acc k
      | O =>
          if startsWith s sep
          then String.rev acc :: splitAux s' sep EmptyString (String.length sep - 1)
          else splitAux s' sep (String c acc) 0
      end
  end.

Definition chars (s : string) : list string :=
  (λ c, String c EmptyString) <$> list_ascii_of_string s.

Definition split (s sep : string) : list string :=
  match sep with
  | EmptyString => chars s
  | _ => splitAux s sep EmptyString 0
  end.

(** *** String to number conversion *)

(** [StrWhiteSpaceChar] within the modelled code units: TAB, LF, VT, FF,
    CR, SP and NBSP. *)
Definition isStrWhiteSpaceChar (c : ascii) : bool :=
  let n := code c in
  (((9 <=? n) && (n <=? 13)) || (n =? 32) || (n =? 160))%N.

Fixpoint trimStart (s : string) : string :=
  match s with
  | EmptyString => EmptyString
  | String c s' => if isStrWhiteSpaceChar c then trimStart s' else s
  end.

Definition trimEnd (s : string) : string :=
  String.rev (trimStart (String.rev s)).

Definition trim (s : string) : string := trimEnd (trimStart s).

(** The value of [c] as a digit of the given radix, if it is one. *)
Definition digitOf (radix : N) (c : ascii) : option N :=
  let n := code c in
  let d := if ((48 <=? n) && (n <=? 57))%N then Some (n - 48)%N
           else if ((97 <=? n) && (n <=? 122))%N then Some (n - 87)%N
           else if ((65 <=? n) && (n <=? 90))%N then Some (n - 55)%N
           else None in
  match d with
  | Some v => if (v <? radix)%N then Some v else None
  | None => None
  end.

(** The longest prefix of radix digits, and what follows it. *)
Fixpoint takeDigits (radix : N) (s : string) : list N * string :=
  match s with
  | EmptyString => ([], EmptyString)
  | String c s' =>
      match digitOf radix c with
      | Some d => let '(ds, r) := takeDigits radix s' in (d :: ds, r)
      | None => ([], s)
      end
  end.

Definition digitsValue (radix : N) (ds : list N) : N :=
  fold_left (λ acc d, acc * radix + d)%N ds 0%N.

Definition pow10 (e : Z) : Qc :=
  if (0 <=? e)%Z then Qc_of_Z (10 ^ e) else (/ Qc_of_Z (10 ^ (- e)))%Qc.

(** The mathematical value of integer digits [ip], fraction digits [fp]
    and decimal exponent [e]. *)
Definition decimalValue (ip fp : list N) (e : Z) : Qc :=
  (Qc_of_Z (Z.of_N (digitsValue 10 (ip ++ fp))) * pow10 (e - Z.of_nat (length fp)))%Qc.

Definition isChar (c : ascii) (lit : string) : bool :=
  bool_decide (String c EmptyString = lit).

(** [ExponentPart_opt] followed by the end of the literal. *)
Definition exponentPart (ip fp : list N) (r : string) : number :=
  match r with
  | EmptyString => Finite (decimalValue ip fp 0)
  | String c r' =>
      if isChar c "e" || isChar c "E" then
        let '(negative, r'') :=
          match r' with
          | String s t =>
              if isChar s "+" then (false, t)
              else if isChar s "-" then (true, t)
              else (false, r')
          | EmptyString => (false, r')
          end in
        let '(ds, rest) := takeDigits 10 r'' in
        match ds, rest with
        | _ :: _, EmptyString =>
            let e := Z.of_N (digitsValue 10 ds) in
            Finite (decimalValue ip fp (if negative then (- e)%Z else e))
        | _, _ => NaN
        end
      else NaN
  end.

(** [StrUnsignedDecimalLiteral]. *)
Definition strUnsignedDecimalLiteral (s : string) : number :=
  if bool_decide (s = "Infinity") then PosInfinity
  else
    let '(ip, r1) := takeDigits 10 s in
    match r1 with
    | String c r2 =>
        if isChar c "." then
          let '(fp, r3) := takeDigits 10 r2 in
          match ip, fp with
          | [], [] => NaN
          | _, _ => exponentPart ip fp r3
          end
        else match ip with [] => NaN | _ => exponentPart ip [] r1 end
    | EmptyString => match ip with [] => NaN | _ => exponentPart ip [] r1 end
    end.

(** [NonDecimalIntegerLiteral] after its two-character prefix. *)
Definition nonDecimalIntegerLiteral (radix : N) (s : string) : number :=
  match takeDigits radix s with
  | ((_ :: _) as ds, EmptyString) => ofZ (Z.of_N (digitsValue radix ds))
  | _ => NaN
  end.

Definition negate (x : number) : number :=
  match x with
  | NaN => NaN
  | NegInfinity => PosInfinity
  | PosInfinity => NegInfinity
  | Finite q => Finite (- q)%Qc
  end.

(** [Number(value)] on a string: [StringToNumber].  White space is
    trimmed, the empty string is 0, and anything that is not a
    [StrNumericLiteral] is NaN. *)
Definition Number (s : string) : number :=
  let t := trim s in
  match t with
  | EmptyString => ofZ 0
  | String c r =>
      if isChar c "+" then strUnsignedDecimalLiteral r
      else if isChar c "-" then negate (strUnsignedDecimalLiteral r)
      else
        match r with
        | String p r' =>
            if isChar c "0" && (isChar p "x" || isChar p "X")
            then nonDecimalIntegerLiteral 16 r'
            else if isChar c "0" && (isChar p "o" || isChar p "O")
            then nonDecimalIntegerLiteral 8 r'
            else if isChar c "0" && (isChar p "b" || isChar p "B")
            then nonDecimalIntegerLiteral 2 r'
            else strUnsignedDecimalLiteral t
        | EmptyString => strUnsignedDecimalLiteral t
        end
  end.

(** [parseInt(string)] with no radix argument: leading white space and a
    sign are skipped, a [0x] prefix selects radix 16, and the longest
    prefix of digits is read; no digit at all is NaN. *)
Definition parseInt (s : string) : number :=
  let t := trimStart s in
  let '(negative, t1) :=
    match t with
    | String c r =>
        if isChar c "-" then (true, r)
        else if isChar c "+" then (false, r)
        else (false, t)
    | EmptyString => (false, t)
    end in
  let '(radix, t2) :=
    match t1 with
    | String c (String p r) =>
        if isChar c "0" && (isChar p "x" || isChar p "X") then (16%N, r)
        else (10%N, t1)
    | _ => (10%N, t1)
    end in
  match takeDigits radix t2 with
  | ((_ :: _) as ds, _) =>
      let v := Z.of_N (digitsValue radix ds) in
      ofZ (if negative then (- v)%Z else v)
  | ([], _) => NaN
  end.

(** *** Arrays *)

(** [Array.prototype.includes] on an array of strings. *)
Definition Array_includes (l : list string) (x : string) : bool :=
  bool_decide (x ∈ l).

(** [Array.prototype.some]. *)
Definition Array_some {A} (l : list A) (f : A → bool) : bool := existsb f l.

(** [Array.prototype.filter]: a new array with the elements the callback
    accepts, in their order. *)
Definition Array_filter {A} (l : list A) (f : A → bool) : list A :=
  List.filter f l.

Section Sort.
Context {A : Type}.

(** [SortCompare] with a comparator: a NaN answer is read as +0. *)
Definition sortCompare (comparefn : A → A → number) (x y : A) : number :=
  match comparefn x y with
  | NaN => ofZ 0
  | v => v
  end.

(** [x] is placed after [y] exactly when [SortCompare(x, y) > 0]. *)
Definition sortsAfter (comparefn : A → A → number) (x y : A) : bool :=
  gt (sortCompare comparefn x y) (ofZ 0).

Fixpoint sortInsert (comparefn : A → A → number) (x : A) (l : list A) : list A :=
  match l with
  | [] => [x]
  | y :: l' =>
      if sortsAfter comparefn x y then y :: sortInsert comparefn x l'
      else x :: l
  end.

(** [Array.prototype.sort(comparefn)], as the list the array holds
    afterwards.  The standard fixes the result for a consistent
    comparator (a sorted permutation, stable since ES2019) and leaves
    the order to the implementation otherwise; the model is the stable
    insertion sort, each element being inserted in front of the part
    that followed it. *)
Definition Array_sort (comparefn : A → A → number) (l : list A) : list A :=
  foldr (sortInsert comparefn) [] l.
End Sort.

End JS.

(** A string of tokens where a text is expected is read as the text it
    stands for. *)
Coercion JS.ofLatin1 : string >-> JS.text.

(** ** The data model of [Box.tsx] *)

Record Rating : Type := mkRating {
  rate : JS.number;
  count : JS.number;
}.

Record Product : Type := mkProduct {
  id : JS.number;
  title : JS.text;
  price : JS.number;
  description : string;
  category : string;
  image : string;
  rating : Rating;
}.

#[global] Instance Rating_eq_dec : EqDecision Rating.
Proof. solve_decision. Defined.
#[global] Instance Product_eq_dec : EqDecision Product.
Proof. solve_decision. Defined.

(** Arrays of products are objects: the component holds references to
    them, and [sort] updates the referenced array in place. *)
Definition loc : Type := positive.

(** The eight [useState] cells of the component. *)
Record State : Type := mkState {
  products : loc;
  filteredProducts : loc;
  loading : bool;
  searchTerm : JS.text;
  selectedCategories : list string;
  selectedPriceRanges : list string;
  selectedRatings : list string;
  sortOption : string;
}.

#[global] Instance State_eq_dec : EqDecision State.
Proof. solve_decision. Defined.

(** What the component can touch: the arrays of products, its own state,
    the requests it has issued and the lines it has written with
    [console.error]. *)
Record World : Type := mkWorld {
  heap : gmap loc (list Product);
  state : State;
  requests : list string;
  console : list (string * string);
}.

(** ** The callbacks of the filter/sort pass (lines 47-103) *)

(** [if (searchTerm)]: a string is truthy when it is not empty. *)
Definition truthy (s : JS.text) : bool := negb (bool_decide (s = "")).

(** Line 52: [product.title.toLowerCase().includes(searchTerm.toLowerCase())]. *)
Definition matchesSearch (searchTerm : JS.text) (product : Product) : bool :=
  JS.includes (JS.toLowerCase (title product)) (JS.toLowerCase searchTerm).

(** Line 59: [selectedCategories.includes(product.category)]. *)
Definition inSelectedCategories (selectedCategories : list string) (product : Product) : bool :=
  JS.Array_includes selectedCategories (category product).

(** Line 68: [range.replace('$', '').split('-').map(Number)]. *)
Definition parseRange (range : string) : list JS.number :=
  JS.Number <$> JS.split (JS.replace range "$" "") "-".

(** Lines 67-73, the callback of [some]: [min] and [max] are the first two
    slots of the parsed array ([max] is [undefined] when there is one
    slot only). *)
Definition inPriceRange (product : Product) (range : string) : bool :=
  let parts := parseRange range in
  let min := JS.toNumber (parts !! 0%nat) in
  let max := JS.toNumber (parts !! 1%nat) in
  if JS.includes range "+" then JS.ge (price product) min
  else JS.ge (price product) min && JS.le (price product) max.

(** Lines 66-74, the callback of [filter]. *)
Definition inSelectedPriceRanges (selectedPriceRanges : list string) (product : Product) : bool :=
  JS.Array_some selectedPriceRanges (inPriceRange product).

(** Line 81: [parseInt(rating.split('+')[0])]; [split] never returns an
    empty array, so slot 0 is a string.  (The callback's parameter is
    called [rating] in the source; [band] here, [rating] being a field of
    [Product].) *)
Definition minRating (band : string) : JS.number :=
  JS.parseInt (default "" (JS.split band "+" !! 0%nat)).

(** Lines 80-83, the callback of [some]. *)
Definition meetsRating (product : Product) (band : string) : bool :=
  JS.ge (rate (rating product)) (minRating band).

(** Lines 79-84, the callback of [filter]. *)
Definition inSelectedRatings (selectedRatings : list string) (product : Product) : bool :=
  JS.Array_some selectedRatings (meetsRating product).

(** The four comparators of lines 88-100. *)
Definition byPriceLowHigh (a b : Product) : JS.number := JS.sub (price a) (price b).
Definition byPriceHighLow (a b : Product) : JS.number := JS.sub (price b) (price a).
Definition byRating (a b : Product) : JS.number :=
  JS.sub (rate (rating b)) (rate (rating a)).
Definition byPopularity (a b : Product) : JS.number :=
  JS.sub (count (rating b)) (count (rating a)).

(** The [switch (sortOption)] of lines 88-100: which comparator is used. *)
Definition comparator (sortOption : string) : Product → Product → JS.number :=
  if bool_decide (sortOption = "price-low-high") then byPriceLowHigh
  else if bool_decide (sortOption = "price-high-low") then byPriceHighLow
  else if bool_decide (sortOption = "rating") then byRating
  else byPopularity.

(** *** The stages on the contents of [result]

    What each guarded block does to the list held by [result]. *)
Definition searchStage (searchTerm : JS.text) (result : list Product) : list Product :=
  if truthy searchTerm then JS.Array_filter result (matchesSearch searchTerm)
  else result.

Definition categoryStage (selectedCategories : list string) (result : list Product) : list Product :=
  if (0 <? length selectedCategories)%nat
  then JS.Array_filter result (inSelectedCategories selectedCategories)
  else result.

Definition priceStage (selectedPriceRanges : list string) (result : list Product) : list Product :=
  if (0 <? length selectedPriceRanges)%nat
  then JS.Array_filter result (inSelectedPriceRanges selectedPriceRanges)
  else result.

Definition ratingStage (selectedRatings : list string) (result : list Product) : list Product :=
  if (0 <? length selectedRatings)%nat
  then JS.Array_filter result (inSelectedRatings selectedRatings)
  else result.

Definition sortStage (sortOption : string) (result : list Product) : list Product :=
  JS.Array_sort (comparator sortOption) result.

(** The list the pass hands to [setFilteredProducts], from the contents
    of [products] and the selection cells of the state. *)
Definition displayed (st : State) (catalog : list Product) : list Product :=
  sortStage (sortOption st)
    (ratingStage (selectedRatings st)
      (priceStage (selectedPriceRanges st)
        (categoryStage (selectedCategories st)
          (searchStage (searchTerm st) catalog)))).

(** ** The component as a program on the world *)

(** Synchronous code: a state monad on [World]. *)
Definition M (A : Type) : Type := World → A * World.

Definition ret {A} (a : A) : M A := λ w, (a, w).
Definition bind {A B} (m : M A) (k : A → M B) : M B :=
  λ w, let '(a, w') := m w in k a w'.

Declare Scope box_scope.
Delimit Scope box_scope with box.
Notation "x <- m ;; k" := (bind m (λ x, k))
  (at level 100, m at next level, right associativity) : box_scope.
Notation "m ;; k" := (bind m (λ _, k))
  (at level 100, right associativity) : box_scope.
Local Open Scope box_scope.

Definition getState : M State := λ w, (state w, w).
Definition setState (f : State → State) : M unit :=
  λ w, (tt, mkWorld (heap w) (f (state w)) (requests w) (console w)).

(** A new array object holding [arr]. *)
Definition newArray (arr : list Product) : M loc :=
  λ w, let l := fresh (dom (heap w)) in
       (l, mkWorld (<[l := arr]> (heap w)) (state w) (requests w) (console w)).

(** The contents of the array at [l]. *)
Definition readArray (l : loc) : M (list Product) :=
  λ w, (default [] (heap w !! l), w).

(** Overwrite the array at [l] in place. *)
Definition writeArray (l : loc) (arr : list Product) : M unit :=
  λ w, (tt, mkWorld (<[l := arr]> (heap w)) (state w) (requests w) (console w)).

(** [[...a]]: a new array with the elements of [a]. *)
Definition spread (a : loc) : M loc :=
  arr <- readArray a ;; newArray arr.

(** [a.filter(f)]: a new array; [a] is not changed. *)
Definition filterArray (a : loc) (f : Product → bool) : M loc :=
  arr <- readArray a ;; newArray (JS.Array_filter arr f).

(** [a.sort(comparefn)]: [a] itself is reordered. *)
Definition sortArray (a : loc) (comparefn : Product → Product → JS.number) : M unit :=
  arr <- readArray a ;; writeArray a (JS.Array_sort comparefn arr).

(** The state setters used by the effects and the handlers. *)
Definition withProducts (l : loc) (st : State) : State :=
  mkState l (filteredProducts st) (loading st) (searchTerm st)
    (selectedCategories st) (selectedPriceRanges st) (selectedRatings st) (sortOption st).
Definition withFilteredProducts (l : loc) (st : State) : State :=
  mkState (products st) l (loading st) (searchTerm st)
    (selectedCategories st) (selectedPriceRanges st) (selectedRatings st) (sortOption st).
Definition withLoading (b : bool) (st : State) : State :=
  mkState (products st) (filteredProducts st) b (searchTerm st)
    (selectedCategories st) (selectedPriceRanges st) (selectedRatings st) (sortOption st).
Definition withSearchTerm (s : JS.text) (st : State) : State :=
  mkState (products st) (filteredProducts st) (loading st) s
    (selectedCategories st) (selectedPriceRanges st) (selectedRatings st) (sortOption st).
Definition withSelectedCategories (f : list string → list string) (st : State) : State :=
  mkState (products st) (filteredProducts st) (loading st) (searchTerm st)
    (f (selectedCategories st)) (selectedPriceRanges st) (selectedRatings st) (sortOption st).
Definition withSelectedPriceRanges (f : list string → list string) (st : State) : State :=
  mkState (products st) (filteredProducts st) (loading st) (searchTerm st)
    (selectedCategories st) (f (selectedPriceRanges st)) (selectedRatings st) (sortOption st).
Definition withSelectedRatings (f : list string → list string) (st : State) : State :=
  mkState (products st) (filteredProducts st) (loading st) (searchTerm st)
    (selectedCategories st) (selectedPriceRanges st) (f (selectedRatings st)) (sortOption st).
Definition withSortOption (s : string) (st : State) : State :=
  mkState (products st) (filteredProducts st) (loading st) (searchTerm st)
    (selectedCategories st) (selectedPriceRanges st) (selectedRatings st) s.

Definition setProducts (l : loc) : M unit := setState (withProducts l).
Definition setFilteredProducts (l : loc) : M unit := setState (withFilteredProducts l).
Definition setLoading (b : bool) : M unit := setState (withLoading b).

(** The second effect, lines 47-103. *)
Definition filterSortEffect : M unit :=
  st <- getState ;;
  result <- spread (products st) ;;
  result <- (if truthy (searchTerm st)
             then filterArray result (matchesSearch (searchTerm st))
             else ret result) ;;
  result <- (if (0 <? length (selectedCategories st))%nat
             then filterArray result (inSelectedCategories (selectedCategories st))
             else ret result) ;;
  result <- (if (0 <? length (selectedPriceRanges st))%nat
             then filterArray result (inSelectedPriceRanges (selectedPriceRanges st))
             else ret result) ;;
  result <- (if (0 <? length (selectedRatings st))%nat
             then filterArray result (inSelectedRatings (selectedRatings st))
             else ret result) ;;
  (if bool_decide (sortOption st = "price-low-high") then sortArray result byPriceLowHigh
   else if bool_decide (sortOption st = "price-high-low") then sortArray result byPriceHighLow
   else if bool_decide (sortOption st = "rating") then sortArray result byRating
   else sortArray result byPopularity) ;;
  setFilteredProducts result.

(** ** The handlers (lines 105-111 and 150-174) *)

(** The updater the three setters of [handleFilterChange] are given:
    [prev.includes(option) ? prev.filter(item => item !== option)
                           : [...prev, option]]. *)
Definition toggleUpdater (option : string) (prev : list string) : list string :=
  if JS.Array_includes prev option
  then JS.Array_filter prev (λ item, negb (bool_decide (item = option)))
  else prev ++ [option].

(** [handleFilterChange]: a [switch] on the name of the filter group with
    three cases and no default. *)
Definition handleFilterChange (category option : string) (st : State) : State :=
  if bool_decide (category = "Category")
  then withSelectedCategories (toggleUpdater option) st
  else if bool_decide (category = "Price Range")
  then withSelectedPriceRanges (toggleUpdater option) st
  else if bool_decide (category = "Rating")
  then withSelectedRatings (toggleUpdater option) st
  else st.

Definition handleReset (st : State) : State :=
  withSortOption "popularity"
    (withSelectedRatings (λ _, [])
      (withSelectedPriceRanges (λ _, [])
        (withSelectedCategories (λ _, [])
          (withSearchTerm "" st)))).

(** The options the sidebar offers (lines 114-127). *)
Definition categories : list string :=
  ["electronics"; "jewelery"; "men's clothing"; "women's clothing"].
Definition priceRangeOptions : list string :=
  ["$0-$50"; "$50-$100"; "$100-$200"; "$200+"].
Definition ratingOptions : list string := ["5"; "4+"; "3+"].
Definition filterCategories : list (string * list string) :=
  [("Category", categories); ("Price Range", priceRangeOptions); ("Rating", ratingOptions)].

(** What the user can do, and the state each action asks for: the
    checkboxes call [handleFilterChange], the search box [setSearchTerm],
    the select [setSortOption] and the reset link [handleReset]. *)
Inductive Event : Type :=
  | FilterChange (category option : string)
  | SearchInput (value : JS.text)
  | SortSelect (value : string)
  | Reset.

Definition handle (e : Event) : State → State :=
  match e with
  | FilterChange category option => handleFilterChange category option
  | SearchInput value => withSearchTerm value
  | SortSelect value => withSortOption value
  | Reset => handleReset
  end.

(** An action and the render that follows it.  The second effect runs
    again when one of its dependencies is another value or another array;
    run on unchanged dependencies it computes the same list again, so it
    is run after every action here. *)
Definition dispatch (e : Event) : M unit :=
  setState (handle e) ;; filterSortEffect.

Fixpoint dispatchAll (es : list Event) : M unit :=
  match es with
  | [] => ret tt
  | e :: es' => dispatch e ;; dispatchAll es'
  end.

(** ** The catalog loader (lines 32-44) *)

(** How a promise settles. *)
Inductive settled (A : Type) : Type :=
  | Fulfilled (a : A)
  | Rejected (reason : string).
Arguments Fulfilled {A} a.
Arguments Rejected {A} reason.

(** A reaction: synchronous code that returns or throws. *)
Definition P (A : Type) : Type := M (settled A).

Definition resolve {A} (a : A) : P A := ret (Fulfilled a).

(** [p.then(f)] and [p.catch(h)]. *)
Definition then_ {A B} (p : P A) (f : A → P B) : P B :=
  r <- p ;;
  match r with
  | Fulfilled a => f a
  | Rejected e => ret (Rejected e)
  end.
Definition catch_ {A} (p : P A) (h : string → P A) : P A :=
  r <- p ;;
  match r with
  | Fulfilled a => ret (Fulfilled a)
  | Rejected e => h e
  end.

(** A response: whether its status is in the range 200-299, the status,
    and what reading its body as JSON settles to.  The body is taken at
    the type the source gives it, [Product[]]. *)
Record Response : Type := mkResponse {
  ok : bool;
  status : N;
  body : settled (list Product);
}.

(** [res.json()]: the parsed array is a new object. *)
Definition json (res : Response) : P loc :=
  match body res with
  | Fulfilled data => l <- newArray data ;; resolve l
  | Rejected e => ret (Rejected e)
  end.

Definition productsUrl : string := "https://fakestoreapi.com/products".

(** [fetch(url)]: the request goes out when the effect runs. *)
Definition fetch (url : string) : M unit :=
  λ w, (tt, mkWorld (heap w) (state w) (requests w ++ [url]) (console w)).

Definition console_error (message reason : string) : M unit :=
  λ w, (tt, mkWorld (heap w) (state w) (requests w) (console w ++ [(message, reason)])).

(** The chain hung on the promise of [fetch], run once that promise has
    settled as [net]. *)
Definition loaderReactions (net : settled Response) : P unit :=
  catch_
    (then_ (then_ (ret net) json)
       (λ data,
          setProducts data ;;
          setFilteredProducts data ;;
          setLoading false ;;
          resolve tt))
    (λ error,
       console_error "Error fetching products:" error ;;
       setLoading false ;;
       resolve tt).

(** The first effect: it issues the request and leaves the chain. *)
Definition loaderEffect : M (settled Response → P unit) :=
  fetch productsUrl ;; ret loaderReactions.

(** *** The life of the component up to the settled request *)

(** The cells as [useState] initialises them; the two [[]] are two
    arrays. *)
Definition initialWorld : World :=
  let h0 : gmap loc (list Product) := ∅ in
  let p := fresh (dom h0) in
  let h1 := <[p := []]> h0 in
  let f := fresh (dom h1) in
  let h2 := <[f := []]> h1 in
  mkWorld h2 (mkState p f true "" [] [] [] "popularity") [] [].

(** After the first render both effects run, in the order they are
    declared. *)
Definition mount : M (settled Response → P unit) :=
  k <- loaderEffect ;;
  filterSortEffect ;;
  ret k.

(** The request settles: the chain runs, and the render that follows
    runs the second effect again if [products], the one dependency the
    chain can change, is another array. *)
Definition settle (k : settled Response → P unit) (net : settled Response) : P unit :=
  prev <- getState ;;
  r <- k net ;;
  st <- getState ;;
  (if bool_decide (products st = products prev) then ret tt else filterSortEffect) ;;
  ret r.

(** The component from its mount to the settled request, [net] being how
    the request settles. *)
Definition Box (net : settled Response) : P unit :=
  k <- mount ;; settle k net.

(** The array a reference of the state points to. *)
Definition arrayAt (w : World) (l : loc) : list Product :=
  default [] (heap w !! l).

(** ** The vocabulary of the specification *)

(** The order of the extended real line on numbers; NaN is not
    comparable to anything. *)
Definition numLe (x y : JS.number) : Prop :=
  match x, y with
  | JS.NaN, _ | _, JS.NaN => False
  | JS.NegInfinity, _ => True
  | _, JS.PosInfinity => True
  | JS.Finite a, JS.Finite b => (a <= b)%Qc
  | _, _ => False
  end.

#[global] Instance numLe_dec x y : Decision (numLe x y).
Proof. destruct x, y; simpl; apply _. Defined.

(** A product as the endpoint delivers it: JSON has no notation for NaN,
    so the three numbers the pass looks at are comparable. *)
Definition wellFormed (p : Product) : Prop :=
  price p ≠ JS.NaN ∧ rate (rating p) ≠ JS.NaN ∧ count (rating p) ≠ JS.NaN.

#[global] Instance wellFormed_dec p : Decision (wellFormed p).
Proof. unfold wellFormed. apply _. Defined.

(** [out] lists the elements in ascending, or descending, order of
    [key]. *)
Definition ascendingBy {A} (key : A → JS.number) (out : list A) : Prop :=
  StronglySorted (λ a b, numLe (key a) (key b)) out.
Definition descendingBy {A} (key : A → JS.number) (out : list A) : Prop :=
  StronglySorted (λ a b, numLe (key b) (key a)) out.

(** Elements with the same key come in [out] in the order they have in
    [l]. *)
Definition tiesInEncounterOrder {A} (key : A → JS.number) (l out : list A) : Prop :=
  ∀ k : JS.number, filter (λ a, key a = k) out = filter (λ a, key a = k) l.

(** [out] is [l] sorted by [key], stably. *)
Definition stableAscending {A} (key : A → JS.number) (l out : list A) : Prop :=
  out ≡ₚ l ∧ ascendingBy key out ∧ tiesInEncounterOrder key l out.
Definition stableDescending {A} (key : A → JS.number) (l out : list A) : Prop :=
  out ≡ₚ l ∧ descendingBy key out ∧ tiesInEncounterOrder key l out.

(** *** Case-insensitive substrings *)

(** A text of code units below U+0100 (Basic Latin and Latin-1
    Supplement). *)
Definition latin1 (t : JS.text) : Prop := Forall (λ c, (c < 256)%N) t.

(** [u] is an upper-case letter among the code units below U+0100 (A-Z,
    and U+00C0-U+00DE without U+00D7) and [l] its lower-case form. *)
Definition upperOf (u l : N) : Prop :=
  ((65 ≤ u ∧ u ≤ 90) ∨ (192 ≤ u ∧ u ≤ 222 ∧ u ≠ 215))%N ∧ l = (u + 32)%N.

(** Two code units that are equal or the two cases of one such letter. *)
Definition sameLetter (a b : N) : Prop :=
  a = b ∨ upperOf a b ∨ upperOf b a.

(** Two texts that differ in the case of letters only. *)
Fixpoint sameIgnoringCase (a b : JS.text) : Prop :=
  match a, b with
  | [], [] => True
  | x :: a', y :: b' => sameLetter x y ∧ sameIgnoringCase a' b'
  | _, _ => False
  end.



(** *** Bands *)

(** The minimum of a rating band, in the words of the specification:
    ["5"] is 5, ["4+"] is 4 and ["3+"] is 3. *)
Definition ratingBandMinimum (band : string) : option Z :=
  if bool_decide (band = "5") then Some 5%Z
  else if bool_decide (band = "4+") then Some 4%Z
  else if bool_decide (band = "3+") then Some 3%Z
  else None.

(** The rating of [p] meets or exceeds the minimum of [band]. *)
Definition meetsBand (p : Product) (band : string) : Prop :=
  match ratingBandMinimum band with
  | Some t => numLe (JS.ofZ t) (rate (rating p))
  | None => False
  end.

#[global] Instance meetsBand_dec p band : Decision (meetsBand p band).
Proof. unfold meetsBand. destruct (ratingBandMinimum band); apply _. Defined.

(** The bounds of a price band, in the words of the specification: an
    inclusive lower bound and, unless the band is the open one, an
    inclusive upper bound. *)
Definition priceBandBounds (band : string) : option (Z * option Z) :=
  if bool_decide (band = "$0-$50") then Some (0, Some 50)%Z
  else if bool_decide (band = "$50-$100") then Some (50, Some 100)%Z
  else if bool_decide (band = "$100-$200") then Some (100, Some 200)%Z
  else if bool_decide (band = "$200+") then Some (200, None)%Z
  else None.

(** The price of [p] lies in [band]. *)
Definition inBand (p : Product) (band : string) : Prop :=
  match priceBandBounds band with
  | Some (lo, Some hi) => numLe (JS.ofZ lo) (price p) ∧ numLe (price p) (JS.ofZ hi)
  | Some (lo, None) => numLe (JS.ofZ lo) (price p)
  | None => False
  end.

#[global] Instance inBand_dec p band : Decision (inBand p band).
Proof. unfold inBand. destruct (priceBandBounds band) as [[lo [hi|]]|]; apply _. Defined.

(** The names of the three filter groups [handleFilterChange] knows. *)
Definition filterNames : list string := ["Category"; "Price Range"; "Rating"].

(** The selection cell a filter group is kept in. *)
Definition selection (category : string) (st : State) : list string :=
  if bool_decide (category = "Category") then selectedCategories st
  else if bool_decide (category = "Price Range") then selectedPriceRanges st
  else if bool_decide (category = "Rating") then selectedRatings st
  else [].

(** Products of the scenarios: only the numbers matter. *)
Definition item (n : Z) (p r c : JS.number) : Product :=
  mkProduct (JS.ofZ n) "" p "" "" "" (mkRating r c).

Definition item10 : Product := item 1 (JS.ofZ 10) (JS.ofZ 3) (JS.ofZ 50).
Definition item90 : Product :=
  item 2 (JS.ofZ 90) (JS.Finite (Q2Qc (9 # 2))) (JS.ofZ 10).

(** A product of a given price, and one of a given title. *)
Definition priced (n : Z) : Product := item n (JS.ofZ n) (JS.ofZ 0) (JS.ofZ 0).
Definition titled (t : JS.text) : Product :=
  mkProduct (JS.ofZ 0) t (JS.ofZ 0) "" "" "" (mkRating (JS.ofZ 0) (JS.ofZ 0)).

(** Two products of two categories. *)
Definition shirt : Product :=
  mkProduct (JS.ofZ 3) "Mens Cotton SHIRT" (JS.ofZ 10) "" "men's clothing" ""
    (mkRating (JS.ofZ 3) (JS.ofZ 120)).
Definition ring : Product :=
  mkProduct (JS.ofZ 4) "Gold Ring" (JS.ofZ 60) "" "jewelery" ""
    (mkRating (JS.ofZ 4) (JS.ofZ 70)).

(** A world whose heap holds one array, [C], which both product cells of
    the state [sampleState ...] refer to. *)
Definition sampleState (search : string) (cats prices ratings : list string)
    (sort : string) : State :=
  mkState 1%positive 1%positive false search cats prices ratings sort.
Definition sampleWorld (C : list Product) (st : State) : World :=
  mkWorld {[1%positive := C]} st [] [].

(** An element whose key can be compared. *)
Definition comparableBy {A} (key : A → JS.number) (a : A) : Prop :=
  key a ≠ JS.NaN.

(** Where a run that started in [w0] stands in [w]: [result] is an array
    made during the run and holds [arr], and nothing that existed in [w0]
    has been touched. *)
Definition midPass (w0 w : World) (result : loc) (arr : list Product) : Prop :=
  state w = state w0 ∧ requests w = requests w0 ∧ console w = console w0 ∧
  heap w !! result = Some arr ∧ heap w0 !! result = None ∧
  ∀ l, is_Some (heap w0 !! l) → heap w !! l = heap w0 !! l.

(** The catalog: the array the [products] cell refers to. *)
Definition catalog (w : World) : list Product := arrayAt w (products (state w)).

(** The displayed list: the array the [filteredProducts] cell refers to. *)
Definition displayedList (w : World) : list Product :=
  arrayAt w (filteredProducts (state w)).

(** ** The sidebar and the toolbar (lines 285-346) *)

(** Lines 298-304, the [checked] attribute of the checkbox of [option] in
    the group [name]: a chain of two conditionals, the last group being
    the fall-through. *)
Definition isChecked (name option : string) (st : State) : bool :=
  if bool_decide (name = "Category")
  then JS.Array_includes (selectedCategories st) option
  else if bool_decide (name = "Price Range")
  then JS.Array_includes (selectedPriceRanges st) option
  else JS.Array_includes (selectedRatings st) option.

(** Lines 285-306: one checkbox per option of each group, whose
    [onCheckedChange] calls [handleFilterChange(category.name, option)]. *)
Definition checkboxes : list (string * string) :=
  flat_map (λ group, (λ option, (group.1, option)) <$> group.2) filterCategories.

(** Lines 341-344: the values of the sort select. *)
Definition sortOptions : list string :=
  ["popularity"; "price-low-high"; "price-high-low"; "rating"].

(** An action the rendered page lets the user take: a click on one of
    its checkboxes, any text in the search box, one of the values of the
    select, or the reset link. *)
Definition offered (e : Event) : Prop :=
  match e with
  | FilterChange category option => (category, option) ∈ checkboxes
  | SearchInput _ => True
  | SortSelect value => value ∈ sortOptions
  | Reset => True
  end.

(** The state at the first render, and the state after a series of
    actions. *)
Definition initialState : State := state initialWorld.
Definition handleAll (es : list Event) (st : State) : State :=
  foldl (λ st e, handle e st) st es.

(** Line 330, "Showing n products". *)
Definition showing (w : World) : nat := length (displayedList w).

(** The four guarded tests of the pass on one product. *)
Definition passesFilters (st : State) (product : Product) : bool :=
  (negb (truthy (searchTerm st)) || matchesSearch (searchTerm st) product)
  && (negb (0 <? length (selectedCategories st))%nat
      || inSelectedCategories (selectedCategories st) product)
  && (negb (0 <? length (selectedPriceRanges st))%nat
      || inSelectedPriceRanges (selectedPriceRanges st) product)
  && (negb (0 <? length (selectedRatings st))%nat
      || inSelectedRatings (selectedRatings st) product).

(** What the four filter blocks do to a list, the sort left out. *)
Definition filtered (st : State) (result : list Product) : list Product :=
  ratingStage (selectedRatings st)
    (priceStage (selectedPriceRanges st)
      (categoryStage (selectedCategories st)
        (searchStage (searchTerm st) result))).

(** A state whose selections hold each option once at most, and only
    options the page offers, and whose sort key is a value of the
    select. *)
Definition wellKept (st : State) : Prop :=
  NoDup (selectedCategories st) ∧ NoDup (selectedPriceRanges st)
  ∧ NoDup (selectedRatings st)
  ∧ selectedCategories st ⊆ categories
  ∧ selectedPriceRanges st ⊆ priceRangeOptions
  ∧ selectedRatings st ⊆ ratingOptions
  ∧ sortOption st ∈ sortOptions.

(** Boolean tests on code units, read as propositions. *)
Ltac N_bools :=
  repeat match goal with
  | H : (_ <=? _)%N = true |- _ => apply N.leb_le in H
  | H : (_ <=? _)%N = false |- _ => apply N.leb_gt in H
  | H : (_ <? _)%N = true |- _ => apply N.ltb_lt in H
  | H : (_ <? _)%N = false |- _ => apply N.ltb_ge in H
  | H : (_ =? _)%N = true |- _ => apply N.eqb_eq in H
  | H : (_ =? _)%N = false |- _ => apply N.eqb_neq in H
  end.

(** * Properties *)

(** ** Numbers *)

Section Numbers.
Implicit Types x y z : JS.number.

Lemma le_numLe x y : JS.le x y = true ↔ numLe x y.
Proof.
  unfold JS.le, JS.ge.
  destruct x as [| |a|], y as [| |b|]; simpl; try (split; [discriminate || done | tauto || done]).
  rewrite negb_true_iff, bool_decide_eq_false.
  split; [apply Qcnot_lt_le | apply Qcle_not_lt].
Qed.

Lemma ge_numLe x y : JS.ge x y = true ↔ numLe y x.
Proof.
  unfold JS.le, JS.ge.
  destruct x as [| |a|], y as [| |b|]; simpl; try (split; [discriminate || done | tauto || done]).
  rewrite negb_true_iff, bool_decide_eq_false.
  split; [apply Qcnot_lt_le | apply Qcle_not_lt].
Qed.

Lemma ge_NaN_r x : JS.ge x JS.NaN = false.
Proof. by destruct x. Qed.

Lemma le_NaN_r x : JS.le x JS.NaN = false.
Proof. by destruct x. Qed.

Lemma numLe_refl x : x ≠ JS.NaN → numLe x x.
Proof. destruct x; simpl; try done; intros _; apply Qcle_refl. Qed.

Lemma numLe_trans x y z : numLe x y → numLe y z → numLe x z.
Proof.
  destruct x, y, z; simpl; try done; apply Qcle_trans.
Qed.

Lemma numLe_total x y : x ≠ JS.NaN → y ≠ JS.NaN → numLe x y ∨ numLe y x.
Proof.
  destruct x as [| |a|], y as [| |b|]; simpl; try done; try tauto.
  intros _ _. destruct (Qclt_le_dec a b) as [H|H]; [left; by apply Qclt_le_weak | by right].
Qed.

Lemma numLe_antisym x y : numLe x y → numLe y x → x = y.
Proof.
  destruct x as [| |a|], y as [| |b|]; simpl; try done.
  intros H1 H2. f_equal. by apply Qcle_antisym.
Qed.

Lemma numLe_not_NaN_l x y : numLe x y → x ≠ JS.NaN.
Proof. by destruct x. Qed.

Lemma numLe_not_NaN_r x y : numLe x y → y ≠ JS.NaN.
Proof. by destruct x, y. Qed.

(** The sign test of [sort] on a difference: [x - y > 0], a NaN
    difference counting as 0, says that [x] is strictly above [y]. *)
Lemma difference_positive x y :
  x ≠ JS.NaN → y ≠ JS.NaN →
  JS.gt (match JS.sub x y with JS.NaN => JS.ofZ 0 | v => v end) (JS.ofZ 0) = true
  ↔ ¬ numLe x y.
Proof.
  unfold JS.gt.
  destruct x as [| |a|], y as [| |b|]; simpl; try done;
    try (intros _ _; split; [discriminate || tauto | tauto || done]).
  intros _ _. rewrite bool_decide_eq_true.
  replace (Qc_of_Z 0) with 0%Qc by (by apply Qc_is_canon).
  split.
  - intros H Hle. apply Qclt_minus_iff in H. exact (Qcle_not_lt _ _ Hle H).
  - intros H. apply Qcnot_le_lt in H. exact (proj1 (Qclt_minus_iff b a) H).
Qed.
End Numbers.

(** ** The sort of [Array.prototype.sort] *)

Section SortFacts.
Context {A : Type} (comparefn : A → A → JS.number).

Lemma sortInsert_perm x l : JS.sortInsert comparefn x l ≡ₚ x :: l.
Proof.
  induction l as [|y l IH]; simpl; [done|].
  destruct (JS.sortsAfter comparefn x y); [|done].
  rewrite IH. apply Permutation_swap.
Qed.

Lemma Array_sort_perm l : JS.Array_sort comparefn l ≡ₚ l.
Proof.
  induction l as [|x l IH]; simpl; [done|].
  by rewrite sortInsert_perm, IH.
Qed.

(** The comparator is consistent with a total preorder [R] on the
    elements that satisfy [good]. *)
Context (good : A → Prop) (R : relation A).
Hypothesis R_trans : ∀ x y z, R x y → R y z → R x z.
Hypothesis R_total : ∀ x y, good x → good y → R x y ∨ R y x.
Hypothesis after_false :
  ∀ x y, good x → good y → JS.sortsAfter comparefn x y = false ↔ R x y.

Lemma sortInsert_sorted x l :
  good x → Forall good l →
  StronglySorted R l → StronglySorted R (JS.sortInsert comparefn x l).
Proof using R_trans R_total after_false.
  intros Hx Hl Hs. induction l as [|y l IH]; simpl.
  { repeat constructor. }
  apply Forall_cons in Hl as [Hy Hl].
  apply StronglySorted_cons in Hs as [Hyl Hs].
  destruct (JS.sortsAfter comparefn x y) eqn:E.
  - apply StronglySorted_cons. split; [|by apply IH].
    rewrite sortInsert_perm. constructor; [|done].
    destruct (R_total x y Hx Hy) as [Hxy|Hyx]; [|done].
    apply after_false in Hxy; [congruence|done..].
  - apply after_false in E; [|done..].
    apply StronglySorted_cons. split.
    + constructor; [done|]. eapply Forall_impl; [exact Hyl|].
      intros z Hz. by eapply R_trans.
    + by apply StronglySorted_cons.
Qed.

Lemma Array_sort_sorted l :
  Forall good l → StronglySorted R (JS.Array_sort comparefn l).
Proof using R_trans R_total after_false.
  induction l as [|x l IH]; simpl; intros Hl.
  { constructor. }
  apply Forall_cons in Hl as [Hx Hl].
  apply sortInsert_sorted; [done| |by apply IH].
  eapply Forall_forall. intros y Hy.
  rewrite Array_sort_perm in Hy. by eapply Forall_forall in Hl.
Qed.

(** Elements of a class [P] whose members are never strictly out of
    order keep their relative positions. *)
Lemma sortInsert_filter (P : A → Prop) `{!∀ a, Decision (P a)} x l :
  good x → Forall good l →
  (∀ a b, good a → good b → P a → P b → R a b) →
  filter P (JS.sortInsert comparefn x l) = filter P (x :: l).
Proof using after_false.
  intros Hx Hl HP. induction l as [|y l IH]; simpl; [done|].
  apply Forall_cons in Hl as [Hy Hl].
  destruct (JS.sortsAfter comparefn x y) eqn:E; [|done].
  rewrite (filter_cons _ y), IH by done.
  rewrite !filter_cons.
  destruct (decide (P x)) as [Px|], (decide (P y)) as [Py|]; try done.
  apply (after_false x y Hx Hy) in HP; [congruence|done..].
Qed.

Lemma Array_sort_filter (P : A → Prop) `{!∀ a, Decision (P a)} l :
  Forall good l →
  (∀ a b, good a → good b → P a → P b → R a b) →
  filter P (JS.Array_sort comparefn l) = filter P l.
Proof using after_false.
  intros Hl HP. induction l as [|x l IH]; simpl; [done|].
  apply Forall_cons in Hl as [Hx Hl].
  rewrite sortInsert_filter; [|done| |done].
  - rewrite !filter_cons, IH by done. done.
  - eapply Forall_forall. intros y Hy.
    rewrite Array_sort_perm in Hy. by eapply Forall_forall in Hl.
Qed.
End SortFacts.

Section SortByKey.
Context {A : Type} (key : A → JS.number).
Implicit Types l out : list A.

Lemma sortsAfter_difference (f g : A → JS.number) a b :
  f a ≠ JS.NaN → g b ≠ JS.NaN →
  JS.sortsAfter (λ x y, JS.sub (f x) (g y)) a b = false ↔ numLe (f a) (g b).
Proof.
  intros Ha Hb. unfold JS.sortsAfter, JS.sortCompare.
  pose proof (difference_positive (f a) (g b) Ha Hb) as H.
  destruct (JS.gt _ _); destruct (decide (numLe (f a) (g b))); intuition congruence.
Qed.

(** Sorting with [(a, b) => key(a) - key(b)]. *)
Lemma sort_stableAscending l :
  Forall (comparableBy key) l →
  stableAscending key l (JS.Array_sort (λ a b, JS.sub (key a) (key b)) l).
Proof.
  intros Hl. split; [apply Array_sort_perm|]. split.
  - apply (Array_sort_sorted _ (comparableBy key)); [| | |done].
    + intros x y z. apply numLe_trans.
    + intros x y. apply numLe_total.
    + intros x y. apply (sortsAfter_difference key key).
  - intros k.
    apply (Array_sort_filter _ (comparableBy key) (λ a b, numLe (key a) (key b))); [|done|].
    + intros x y. apply (sortsAfter_difference key key).
    + intros a b Ha _ Hak Hbk. rewrite Hbk, <-Hak. by apply numLe_refl.
Qed.

(** Sorting with [(a, b) => key(b) - key(a)]. *)
Lemma sort_stableDescending l :
  Forall (comparableBy key) l →
  stableDescending key l (JS.Array_sort (λ a b, JS.sub (key b) (key a)) l).
Proof.
  intros Hl. split; [apply Array_sort_perm|]. split.
  - apply (Array_sort_sorted _ (comparableBy key) (λ a b, numLe (key b) (key a))); [| | |done].
    + intros x y z H1 H2. by eapply numLe_trans.
    + intros x y Hx Hy. destruct (numLe_total (key x) (key y)); auto.
    + intros x y Hx Hy.
      apply (sortsAfter_difference (λ _, key y) (λ _, key x) x y Hy Hx).
  - intros k.
    apply (Array_sort_filter _ (comparableBy key) (λ a b, numLe (key b) (key a))); [|done|].
    + intros x y Hx Hy.
      apply (sortsAfter_difference (λ _, key y) (λ _, key x) x y Hy Hx).
    + intros a b Ha _ Hak Hbk. rewrite Hbk, <-Hak. by apply numLe_refl.
Qed.

(** A list has one stable sort only: two sorted lists with the same
    elements of every key, in the same order, are equal. *)
Lemma sorted_ties_unique (R : relation JS.number) l1 l2 :
  (∀ x y, R x y → R y x → x = y) →
  StronglySorted (λ a b, R (key a) (key b)) l1 →
  StronglySorted (λ a b, R (key a) (key b)) l2 →
  (∀ k, filter (λ a, key a = k) l1 = filter (λ a, key a = k) l2) →
  l1 = l2.
Proof.
  intros Hanti. revert l2. induction l1 as [|x l1 IH]; intros l2 H1 H2 Hf.
  { destruct l2 as [|y l2]; [done|].
    specialize (Hf (key y)). rewrite filter_nil, filter_cons_True in Hf; done. }
  destruct l2 as [|y l2].
  { specialize (Hf (key x)). rewrite filter_nil, filter_cons_True in Hf; done. }
  apply StronglySorted_cons in H1 as [Hx H1].
  apply StronglySorted_cons in H2 as [Hy H2].
  assert (key x = key y) as Hk.
  { assert (x ∈ y :: l2) as Hx2.
    { eapply (proj1 (list_elem_of_filter (λ a, key a = key x) _ _)).
      rewrite <-Hf, filter_cons_True by done. left. }
    assert (y ∈ x :: l1) as Hy1.
    { eapply (proj1 (list_elem_of_filter (λ a, key a = key y) _ _)).
      rewrite Hf, filter_cons_True by done. left. }
    apply elem_of_cons in Hx2 as [->|Hx2]; [done|].
    apply elem_of_cons in Hy1 as [->|Hy1]; [done|].
    apply Hanti.
    - by eapply Forall_forall in Hx.
    - by eapply Forall_forall in Hy. }
  assert (x = y) as ->.
  { specialize (Hf (key x)).
    rewrite filter_cons_True, (filter_cons_True _ y) in Hf by done.
    congruence. }
  f_equal. apply IH; [done..|].
  intros k. specialize (Hf k). rewrite !filter_cons in Hf.
  destruct (decide (key y = k)); congruence.
Qed.

Lemma stableAscending_unique l out1 out2 :
  stableAscending key l out1 → stableAscending key l out2 → out1 = out2.
Proof.
  intros (_ & Hs1 & Ht1) (_ & Hs2 & Ht2).
  apply (sorted_ties_unique numLe); [apply numLe_antisym|done..|].
  intros k. by rewrite Ht1, Ht2.
Qed.

Lemma stableDescending_unique l out1 out2 :
  stableDescending key l out1 → stableDescending key l out2 → out1 = out2.
Proof.
  intros (_ & Hs1 & Ht1) (_ & Hs2 & Ht2).
  apply (sorted_ties_unique (flip numLe)); [|done..|].
  - intros x y H1 H2. by apply numLe_antisym.
  - intros k. by rewrite Ht1, Ht2.
Qed.
End SortByKey.

(** ** The filter/sort pass on the world *)

Section Pass.
Implicit Types w : World.

Lemma bind_run {A B} (m : M A) (k : A → M B) w a w' :
  m w = (a, w') → bind m k w = k a w'.
Proof. unfold bind. by intros ->. Qed.

Lemma newArray_run arr w :
  ∃ l, newArray arr w
       = (l, mkWorld (<[l := arr]> (heap w)) (state w) (requests w) (console w))
       ∧ heap w !! l = None.
Proof.
  exists (fresh (dom (heap w))). split; [done|].
  apply not_elem_of_dom, is_fresh.
Qed.

Lemma spread_run w0 a :
  ∃ result w, spread a w0 = (result, w) ∧ midPass w0 w result (arrayAt w0 a).
Proof.
  destruct (newArray_run (arrayAt w0 a) w0) as (l & Hrun & Hfresh).
  eexists l, _. split.
  - unfold spread. erewrite bind_run by reflexivity. exact Hrun.
  - repeat split; simpl; try done.
    + apply lookup_insert_eq.
    + intros l' [x Hl']. apply lookup_insert_ne. congruence.
Qed.

Lemma guarded_filter_run w0 w result arr (b : bool) f :
  midPass w0 w result arr →
  ∃ result' w',
    (if b then filterArray result f else ret result) w = (result', w')
    ∧ midPass w0 w' result' (if b then JS.Array_filter arr f else arr).
Proof.
  intros (Hst & Hrq & Hco & Hres & Hnew & Hold).
  destruct b; [|by eexists result, w].
  destruct (newArray_run (JS.Array_filter arr f) w) as (l & Hrun & Hfresh).
  eexists l, _. split.
  - unfold filterArray. erewrite bind_run by reflexivity.
    unfold arrayAt. rewrite Hres. exact Hrun.
  - repeat split; simpl; try done.
    + apply lookup_insert_eq.
    + destruct (heap w0 !! l) eqn:E; [|done].
      rewrite <-Hold in E by done. congruence.
    + intros l' Hl'. rewrite lookup_insert_ne; [by apply Hold|].
      intros ->. destruct Hl' as [x Hx].
      rewrite <-Hold in Hx by done. congruence.
Qed.

Lemma sortArray_run w0 w result arr comparefn :
  midPass w0 w result arr →
  ∃ w', sortArray result comparefn w = (tt, w')
        ∧ midPass w0 w' result (JS.Array_sort comparefn arr).
Proof.
  intros (Hst & Hrq & Hco & Hres & Hnew & Hold).
  eexists. split.
  - unfold sortArray. erewrite bind_run by reflexivity.
    unfold arrayAt. rewrite Hres. reflexivity.
  - repeat split; simpl; try done.
    + apply lookup_insert_eq.
    + intros l' Hl'. rewrite lookup_insert_ne; [by apply Hold|].
      intros ->. destruct Hl' as [x Hx]. congruence.
Qed.

Lemma sort_switch sortOption result :
  (if bool_decide (sortOption = "price-low-high") then sortArray result byPriceLowHigh
   else if bool_decide (sortOption = "price-high-low") then sortArray result byPriceHighLow
   else if bool_decide (sortOption = "rating") then sortArray result byRating
   else sortArray result byPopularity)
  = sortArray result (comparator sortOption).
Proof. unfold comparator. by repeat case_bool_decide. Qed.

(** One run of the second effect: a new array holds the list computed
    from the catalog, the [filteredProducts] cell is pointed at it, and
    every array that existed before is as it was. *)
Lemma filterSortEffect_run w0 :
  ∃ result w,
    filterSortEffect w0 = (tt, w)
    ∧ state w = withFilteredProducts result (state w0)
    ∧ requests w = requests w0 ∧ console w = console w0
    ∧ heap w !! result = Some (displayed (state w0) (catalog w0))
    ∧ heap w0 !! result = None
    ∧ ∀ l, is_Some (heap w0 !! l) → heap w !! l = heap w0 !! l.
Proof.
  destruct (spread_run w0 (products (state w0))) as (r0 & w1 & E0 & H0).
  destruct (guarded_filter_run w0 w1 r0 _ (truthy (searchTerm (state w0)))
    (matchesSearch (searchTerm (state w0))) H0) as (r1 & w2 & E1 & H1).
  destruct (guarded_filter_run w0 w2 r1 _
    (0 <? length (selectedCategories (state w0)))%nat
    (inSelectedCategories (selectedCategories (state w0))) H1) as (r2 & w3 & E2 & H2).
  destruct (guarded_filter_run w0 w3 r2 _
    (0 <? length (selectedPriceRanges (state w0)))%nat
    (inSelectedPriceRanges (selectedPriceRanges (state w0))) H2) as (r3 & w4 & E3 & H3).
  destruct (guarded_filter_run w0 w4 r3 _
    (0 <? length (selectedRatings (state w0)))%nat
    (inSelectedRatings (selectedRatings (state w0))) H3) as (r4 & w5 & E4 & H4).
  destruct (sortArray_run w0 w5 r4 _ (comparator (sortOption (state w0))) H4)
    as (w6 & E5 & (Hst & Hrq & Hco & Hres & Hnew & Hold)).
  exists r4. eexists. split.
  - unfold filterSortEffect.
    rewrite (bind_run getState _ w0 (state w0) w0) by done.
    rewrite (bind_run _ _ _ _ _ E0), (bind_run _ _ _ _ _ E1),
      (bind_run _ _ _ _ _ E2), (bind_run _ _ _ _ _ E3), (bind_run _ _ _ _ _ E4).
    rewrite sort_switch, (bind_run _ _ _ _ _ E5). reflexivity.
  - simpl. rewrite Hst. done.
Qed.
End Pass.

(** ** What the stages keep *)

Lemma Array_filter_as_filter {A} (f : A → bool) (l : list A) :
  JS.Array_filter l f = filter (λ a, f a = true) l.
Proof.
  unfold JS.Array_filter. induction l as [|x l IH]; simpl; [done|].
  rewrite filter_cons, IH. destruct (f x); by case_decide.
Qed.

Lemma Array_filter_sublist {A} (f : A → bool) (l : list A) :
  JS.Array_filter l f `sublist_of` l.
Proof. rewrite Array_filter_as_filter. apply sublist_filter. Qed.

Lemma guarded_filter_sublist (b : bool) (f : Product → bool) l :
  (if b then JS.Array_filter l f else l) `sublist_of` l.
Proof. destruct b; [apply Array_filter_sublist | done]. Qed.

Lemma displayed_submseteq st C : displayed st C ⊆+ C.
Proof.
  unfold displayed, sortStage.
  rewrite Array_sort_perm.
  apply sublist_submseteq.
  unfold ratingStage, priceStage, categoryStage, searchStage.
  repeat (etrans; [apply guarded_filter_sublist|]). done.
Qed.

Lemma filterSortEffect_catalog (w : World) (C : list Product) :
  heap w !! products (state w) = Some C →
  ∃ w', filterSortEffect w = (tt, w')
        ∧ heap w' !! products (state w') = Some C
        ∧ (∀ l, is_Some (heap w !! l) → heap w' !! l = heap w !! l)
        ∧ displayedList w' = displayed (state w) C
        ∧ displayedList w' ⊆+ C
        ∧ (∀ p, p ∈ displayedList w' → p ∈ C).
Proof.
  intros HC.
  destruct (filterSortEffect_run w)
    as (result & w' & Hrun & Hst & _ & _ & Hres & _ & Hold).
  exists w'. split; [done|].
  assert (catalog w = C) as HcatC by (unfold catalog, arrayAt; by rewrite HC).
  assert (displayedList w' = displayed (state w) C) as Hd.
  { unfold displayedList, arrayAt. rewrite Hst. simpl. by rewrite Hres, HcatC. }
  split; [|split; [done|split; [done|split]]].
  - rewrite Hst. simpl. rewrite Hold by eauto. done.
  - rewrite Hd. apply displayed_submseteq.
  - intros p Hp. rewrite Hd in Hp.
    eapply elem_of_submseteq; [exact Hp | apply displayed_submseteq].
Qed.

(** C8: a filter/sort pass leaves the catalog array, and every array that
    existed before it, as it was; the list it displays is the one computed
    from the catalog, and holds no product more often than the catalog
    does (so none that the catalog lacks). *)
Theorem pass_preserves_catalog (w : World) (C : list Product) :
  heap w !! products (state w) = Some C →
  ∃ w', filterSortEffect w = (tt, w')
        ∧ heap w' !! products (state w') = Some C
        ∧ (∀ l, is_Some (heap w !! l) → heap w' !! l = heap w !! l)
        ∧ displayedList w' = displayed (state w) C
        ∧ displayedList w' ⊆+ C
        ∧ (∀ p, p ∈ displayedList w' → p ∈ C).
Proof. apply filterSortEffect_catalog. Qed.

Lemma pass_preserves_catalog_witness :
  ∃ w', filterSortEffect
          (sampleWorld [item90; item10] (sampleState "" [] [] ["4+"] "price-low-high"))
        = (tt, w')
        ∧ heap w' !! products (state w') = Some [item90; item10]
        ∧ (∀ l, is_Some (({[1%positive := [item90; item10]]} : gmap loc (list Product)) !! l) →
                heap w' !! l = ({[1%positive := [item90; item10]]} : gmap loc (list Product)) !! l)
        ∧ displayedList w'
          = displayed (sampleState "" [] [] ["4+"] "price-low-high") [item90; item10]
        ∧ displayedList w' ⊆+ [item90; item10]
        ∧ (∀ p, p ∈ displayedList w' → p ∈ [item90; item10]).
Proof.
  apply (pass_preserves_catalog
           (sampleWorld [item90; item10] (sampleState "" [] [] ["4+"] "price-low-high"))
           [item90; item10]).
  reflexivity.
Defined.

(** No action of the user points the [products] cell elsewhere. *)
Lemma handle_products e st : products (handle e st) = products st.
Proof.
  destruct e as [category option| | |]; simpl; try done.
  unfold handleFilterChange. by repeat case_bool_decide.
Qed.

(** However many actions follow one another, each with its pass, the
    catalog stays what it was and what is displayed is drawn from it. *)
Lemma dispatchAll_catalog (es : list Event) (w : World) (C : list Product) :
  heap w !! products (state w) = Some C →
  ∃ w', dispatchAll es w = (tt, w')
        ∧ heap w' !! products (state w') = Some C
        ∧ (es ≠ [] → displayedList w' ⊆+ C).
Proof.
  revert w. induction es as [|e es IH]; intros w HC; simpl.
  { by exists w. }
  set (w1 := mkWorld (heap w) (handle e (state w)) (requests w) (console w)).
  destruct (filterSortEffect_catalog w1 C) as (w2 & Hrun & HC2 & _ & _ & Hsub & _).
  { simpl. by rewrite handle_products. }
  destruct (IH w2 HC2) as (w3 & Hrun3 & HC3 & Hsub3).
  exists w3. split; [|split; [done|]].
  - unfold dispatch at 1.
    rewrite (bind_run _ _ w tt w2); [done|].
    by rewrite (bind_run _ _ w tt w1).
  - intros _. destruct es as [|e' es]; [|by apply Hsub3].
    simpl in Hrun3. by injection Hrun3 as <-.
Qed.

Lemma handleReset_idempotent st : handleReset (handleReset st) = handleReset st.
Proof. done. Qed.

(** C2: with an empty search string, three empty selections and the sort
    key "popularity", the pass displays the catalog sorted by descending
    review count, products with the same count in their catalog order. *)
Theorem default_view_is_popularity_order (w : World) :
  searchTerm (state w) = "" →
  selectedCategories (state w) = [] →
  selectedPriceRanges (state w) = [] →
  selectedRatings (state w) = [] →
  sortOption (state w) = "popularity" →
  Forall (comparableBy (λ p, count (rating p))) (catalog w) →
  ∃ w', filterSortEffect w = (tt, w')
        ∧ stableDescending (λ p, count (rating p)) (catalog w) (displayedList w').
Proof.
  intros Hq Hc Hp Hr Hs Hwf.
  destruct (filterSortEffect_run w)
    as (result & w' & Hrun & Hst & _ & _ & Hres & _ & _).
  exists w'. split; [done|].
  assert (displayedList w' = JS.Array_sort byPopularity (catalog w)) as ->.
  { unfold displayedList, arrayAt. rewrite Hst. simpl. rewrite Hres. simpl.
    unfold displayed, sortStage, ratingStage, priceStage, categoryStage, searchStage.
    rewrite Hq, Hc, Hp, Hr, Hs. done. }
  by apply (sort_stableDescending (λ p, count (rating p))).
Qed.

Lemma default_view_is_popularity_order_witness :
  ∃ w', filterSortEffect
          (sampleWorld [item90; item10] (sampleState "" [] [] [] "popularity")) = (tt, w')
        ∧ stableDescending (λ p, count (rating p)) [item90; item10] (displayedList w').
Proof.
  apply (default_view_is_popularity_order
           (sampleWorld [item90; item10] (sampleState "" [] [] [] "popularity")));
    try reflexivity.
  repeat constructor; discriminate.
Defined.

Lemma comparator_other sortOption :
  sortOption ∉ ["price-low-high"; "price-high-low"; "rating"] →
  comparator sortOption = byPopularity.
Proof.
  intros Hn. unfold comparator.
  repeat case_bool_decide; try done; subst; exfalso; apply Hn;
    repeat first [apply list_elem_of_here | apply list_elem_of_further].
Qed.

(** C5: the sort stage orders a list of well-formed products by the one
    key its sort key names - ascending price for "price-low-high",
    descending price for "price-high-low", descending rating for "rating",
    descending review count for every other key - and leaves products
    with equal keys in the order they came in; the products priced 10 and
    90 come out in that order under "price-low-high", whichever came
    first. *)
Theorem sort_stage_orders (sortOption : string) (l : list Product) :
  Forall wellFormed l →
  sortStage sortOption l ≡ₚ l
  ∧ (sortOption = "price-low-high" →
     stableAscending price l (sortStage sortOption l))
  ∧ (sortOption = "price-high-low" →
     stableDescending price l (sortStage sortOption l))
  ∧ (sortOption = "rating" →
     stableDescending (λ p, rate (rating p)) l (sortStage sortOption l))
  ∧ (sortOption ∉ ["price-low-high"; "price-high-low"; "rating"] →
     stableDescending (λ p, count (rating p)) l (sortStage sortOption l))
  ∧ sortStage "price-low-high" [item10; item90] = [item10; item90]
  ∧ sortStage "price-low-high" [item90; item10] = [item10; item90].
Proof.
  intros Hwf.
  assert (Forall (comparableBy price) l
          ∧ Forall (comparableBy (λ p, rate (rating p))) l
          ∧ Forall (comparableBy (λ p, count (rating p))) l) as (Hp & Hr & Hc).
  { repeat split; eapply Forall_impl; try exact Hwf; by intros p (? & ? & ?). }
  split; [apply Array_sort_perm|].
  unfold sortStage.
  split; [|split; [|split; [|split; [|split]]]].
  - intros ->. apply (sort_stableAscending price l Hp).
  - intros ->. apply (sort_stableDescending price l Hp).
  - intros ->. apply (sort_stableDescending (λ p, rate (rating p)) l Hr).
  - intros Hother. rewrite (comparator_other _ Hother).
    apply (sort_stableDescending (λ p, count (rating p)) l Hc).
  - reflexivity.
  - reflexivity.
Qed.

Lemma sort_stage_orders_witness :
  stableDescending (λ p, rate (rating p)) [item10; item90]
    (sortStage "rating" [item10; item90]).
Proof.
  apply (sort_stage_orders "rating" [item10; item90]); [|reflexivity].
  repeat constructor; discriminate.
Defined.

(** ** Strings *)

Lemma startsWith_spec s p :
  JS.startsWith s p = true ↔ ∃ post, s = p +:+ post.
Proof.
  revert s. induction p as [|a p IH]; intros s; simpl.
  { split; [by exists s | done]. }
  destruct s as [|b s]; simpl.
  { split; [done | by intros [post ?]]. }
  rewrite andb_true_iff, bool_decide_eq_true, IH. split.
  - intros [-> [post ->]]. by exists post.
  - intros [post [= -> ->]]. split; [done | by exists post].
Qed.

Section Text.
Implicit Types (s t q w pre post : JS.text) (a b c : N).

Lemma hasPrefix_spec s p :
  JS.hasPrefix s p = true ↔ ∃ post, s = (p ++ post)%list.
Proof.
  revert s. induction p as [|a p IH]; intros s; simpl.
  { split; [by exists s | done]. }
  destruct s as [|b s]; simpl.
  { split; [done | by intros [post ?]]. }
  rewrite andb_true_iff, N.eqb_eq, IH. split.
  - intros [-> [post ->]]. by exists post.
  - intros [post [= -> ->]]. split; [done | by exists post].
Qed.

(** [includes] is the occurrence of the code units of one string, in a
    row, in the other. *)
Lemma includes_spec s t :
  JS.includes s t = true ↔ ∃ pre post, s = (pre ++ t ++ post)%list.
Proof.
  induction s as [|c s IH]; simpl.
  - rewrite orb_false_r, hasPrefix_spec. split.
    + intros [post H]. by exists [], post.
    + intros (pre & post & H). destruct pre; [by exists post | done].
  - rewrite orb_true_iff, IH, hasPrefix_spec. split.
    + intros [[post H]|(pre & post & H)].
      * by exists [], post.
      * exists (c :: pre), post. simpl. by rewrite H.
    + intros (pre & post & H). destruct pre as [|c' pre]; simpl in H.
      * left. by exists post.
      * right. injection H as -> ->. by exists pre, post.
Qed.

(** Below U+0100 the simple lower-case mapping adds 32 to A-Z and to
    U+00C0-U+00DE without U+00D7, and leaves the rest. *)
Lemma simpleLower_below_256 c :
  (c < 256)%N →
  JS.simpleLower c
  = (if ((65 <=? c) && (c <=? 90) || (192 <=? c) && (c <=? 222) && negb (c =? 215))
     then c + 32 else c)%N.
Proof.
  intros Hc.
  assert (forallb
            (λ n, (JS.simpleLower n
                   =? (if ((65 <=? n) && (n <=? 90)
                           || (192 <=? n) && (n <=? 222) && negb (n =? 215))
                       then n + 32 else n))%N)
            (List.map N.of_nat (seq 0 256)) = true) as Hall
    by (vm_compute; reflexivity).
  rewrite forallb_forall in Hall. apply N.eqb_eq, Hall.
  apply in_map_iff. exists (N.to_nat c). split; [lia|]. apply in_seq. lia.
Qed.

Lemma simpleLower_cases c :
  (c < 256)%N →
  (((65 ≤ c ∧ c ≤ 90) ∨ (192 ≤ c ∧ c ≤ 222 ∧ c ≠ 215)) ∧ JS.simpleLower c = c + 32)%N
  ∨ (¬ ((65 ≤ c ∧ c ≤ 90) ∨ (192 ≤ c ∧ c ≤ 222 ∧ c ≠ 215)) ∧ JS.simpleLower c = c)%N.
Proof.
  intros Hc. rewrite (simpleLower_below_256 c Hc).
  destruct (65 <=? c)%N eqn:E1, (c <=? 90)%N eqn:E2,
    (192 <=? c)%N eqn:E3, (c <=? 222)%N eqn:E4,
    (c =? 215)%N eqn:E5; simpl; N_bools;
    first [ right; split; [lia|done] | left; split; [lia|done] ].
Qed.

Lemma simpleLower_sameLetter a b :
  (a < 256)%N → (b < 256)%N →
  JS.simpleLower a = JS.simpleLower b ↔ sameLetter a b.
Proof.
  intros Ha Hb. unfold sameLetter, upperOf.
  destruct (simpleLower_cases a Ha) as [[Ra ->]|[Ra ->]],
    (simpleLower_cases b Hb) as [[Rb ->]|[Rb ->]]; lia.
Qed.

Lemma codePoints_latin1 t : latin1 t → JS.codePoints t = t.
Proof.
  induction 1 as [|u t Hu Ht IH]; [done|].
  simpl. destruct t as [|v t]; [done|].
  replace (JS.isLeadSurrogate u) with false.
  - simpl. simpl in IH. by rewrite IH.
  - symmetry. unfold JS.isLeadSurrogate. apply andb_false_iff. left.
    apply N.leb_gt. lia.
Qed.

Lemma lowerCodePoints_latin1 before t :
  latin1 t → JS.lowerCodePoints before t = JS.simpleLower <$> t.
Proof.
  intros Ht. revert before. induction Ht as [|c t Hc Ht IH]; intros before; [done|].
  simpl. rewrite IH. unfold JS.lowerCodePoint.
  assert ((c =? 931)%N = false) as -> by (apply N.eqb_neq; lia).
  assert ((c =? 304)%N = false) as -> by (apply N.eqb_neq; lia).
  done.
Qed.

Lemma codeUnits_simpleLower_latin1 t :
  latin1 t → flat_map JS.codeUnits (JS.simpleLower <$> t) = JS.simpleLower <$> t.
Proof.
  induction 1 as [|c t Hc Ht IH]; [done|].
  change (flat_map JS.codeUnits (JS.simpleLower <$> c :: t))
    with (JS.codeUnits (JS.simpleLower c)
          ++ flat_map JS.codeUnits (JS.simpleLower <$> t))%list.
  rewrite IH. unfold JS.codeUnits.
  assert ((JS.simpleLower c <? 65536)%N = true) as ->; [|done].
  apply N.ltb_lt. destruct (simpleLower_cases c Hc) as [[_ ->]|[_ ->]]; lia.
Qed.

(** On a text of code units below U+0100 [toLowerCase] lowers the code
    units one by one. *)
Lemma toLowerCase_latin1 t :
  latin1 t → JS.toLowerCase t = JS.simpleLower <$> t.
Proof.
  intros Ht. unfold JS.toLowerCase.
  by rewrite codePoints_latin1, lowerCodePoints_latin1, codeUnits_simpleLower_latin1.
Qed.


Lemma sameIgnoringCase_latin1 (x y : JS.text) :
  latin1 x → latin1 y →
  JS.simpleLower <$> x = JS.simpleLower <$> y ↔ sameIgnoringCase x y.
Proof.
  intros Hx. revert y. induction Hx as [|c x Hc Hx IH]; intros [|d y] Hy; simpl; try done.
  apply Forall_cons in Hy as [Hd Hy]. split.
  - intros H. injection H as H1 H2.
    split; [by apply simpleLower_sameLetter | by apply IH].
  - intros [H1 H2]. apply simpleLower_sameLetter in H1; [|done..].
    apply IH in H2; [|done]. by f_equal.
Qed.

Lemma toLowerCase_sameIgnoringCase (x y : JS.text) :
  latin1 x → latin1 y →
  JS.toLowerCase x = JS.toLowerCase y ↔ sameIgnoringCase x y.
Proof.
  intros Hx Hy. rewrite !toLowerCase_latin1 by done. by apply sameIgnoringCase_latin1.
Qed.



End Text.

Lemma Array_filter_elem_of {A} (f : A → bool) (l : list A) x :
  x ∈ JS.Array_filter l f ↔ x ∈ l ∧ f x = true.
Proof. rewrite Array_filter_as_filter, list_elem_of_filter. tauto. Qed.



Example search_stage_sample :
  searchStage "shirt" [titled "Mens Cotton SHIRT"; titled "Gold Ring"]
  = [titled "Mens Cotton SHIRT"].
Proof. reflexivity. Qed.


(** ** Bands *)

Lemma Array_some_Exists {A} (f : A → bool) (P : A → Prop) (l : list A) :
  (∀ a, a ∈ l → f a = true ↔ P a) →
  JS.Array_some l f = true ↔ Exists P l.
Proof.
  unfold JS.Array_some. induction l as [|x l IH]; intros H; simpl.
  { split; [done | by intros ?%Exists_nil]. }
  rewrite orb_true_iff, Exists_cons, IH, H; [done|left|].
  intros a Ha. apply H. by right.
Qed.

Lemma Array_some_none {A} (f : A → bool) (l : list A) :
  (∀ a, a ∈ l → f a = false) → JS.Array_some l f = false.
Proof.
  unfold JS.Array_some. induction l as [|x l IH]; intros H; simpl; [done|].
  rewrite H, IH; [done| |left]. intros a Ha. apply H. by right.
Qed.

Lemma Array_filter_none {A} (f : A → bool) (l : list A) :
  (∀ a, f a = false) → JS.Array_filter l f = [].
Proof.
  intros H. unfold JS.Array_filter. induction l as [|x l IH]; simpl; [done|].
  by rewrite H.
Qed.

(** No price passes the test of a band the sidebar offers. *)
Lemma inPriceRange_offered product range :
  range ∈ priceRangeOptions → inPriceRange product range = false.
Proof.
  unfold priceRangeOptions. rewrite !elem_of_cons, elem_of_nil.
  intros [->|[->|[->|[->|[]]]]]; unfold inPriceRange.
  - change (JS.includes "$0-$50" "+") with false.
    change (JS.toNumber (parseRange "$0-$50" !! 1%nat)) with JS.NaN.
    by rewrite le_NaN_r, andb_false_r.
  - change (JS.includes "$50-$100" "+") with false.
    change (JS.toNumber (parseRange "$50-$100" !! 1%nat)) with JS.NaN.
    by rewrite le_NaN_r, andb_false_r.
  - change (JS.includes "$100-$200" "+") with false.
    change (JS.toNumber (parseRange "$100-$200" !! 1%nat)) with JS.NaN.
    by rewrite le_NaN_r, andb_false_r.
  - change (JS.includes "$200+" "+") with true.
    change (JS.toNumber (parseRange "$200+" !! 0%nat)) with JS.NaN.
    by rewrite ge_NaN_r.
Qed.

(** C9: whatever bands of the sidebar are selected, one at least, the
    price filter keeps no product of any catalog: the upper bound of
    "$0-$50", "$50-$100" and "$100-$200" is read from a string that still
    has its "$", and the lower bound of "$200+" from "200+", and both
    readings are NaN. *)
Theorem offered_price_bands_keep_nothing (C : list Product) (sel : list string) :
  sel ≠ [] →
  Forall (λ range, range ∈ priceRangeOptions) sel →
  priceStage sel C = []
  ∧ JS.split (JS.replace "$0-$50" "$" "") "-" = ["0"; "$50"]
  ∧ JS.Number "$50" = JS.NaN
  ∧ JS.split (JS.replace "$50-$100" "$" "") "-" = ["50"; "$100"]
  ∧ JS.Number "$100" = JS.NaN
  ∧ JS.split (JS.replace "$100-$200" "$" "") "-" = ["100"; "$200"]
  ∧ JS.Number "$200" = JS.NaN
  ∧ JS.split (JS.replace "$200+" "$" "") "-" = ["200+"]
  ∧ JS.Number "200+" = JS.NaN.
Proof.
  intros Hne Hsel. split; [|by repeat split].
  unfold priceStage. destruct sel as [|r sel]; [done|]. simpl (0 <? _)%nat. cbv iota.
  apply Array_filter_none. intros p.
  apply Array_some_none. intros range Hr.
  apply inPriceRange_offered. by eapply Forall_forall in Hsel.
Qed.

Lemma offered_price_bands_keep_nothing_witness :
  priceStage ["$0-$50"; "$200+"] [item10; item90] = [].
Proof.
  apply (offered_price_bands_keep_nothing [item10; item90] ["$0-$50"; "$200+"]).
  - discriminate.
  - repeat constructor; unfold priceRangeOptions;
      repeat first [apply list_elem_of_here | apply list_elem_of_further].
Defined.

(** C1, at the scenario of the specification: with "$0-$50" selected and
    products priced 10, 60 and 200, the band holds the product priced 10
    and no other, and the price filter keeps none of the three. *)
Theorem price_scenario_keeps_nothing :
  priceStage ["$0-$50"] [priced 10; priced 60; priced 200] = []
  ∧ filter (λ p, Exists (inBand p) ["$0-$50"]) [priced 10; priced 60; priced 200]
    = [priced 10].
Proof. split; reflexivity. Qed.

(** The same band written without its second "$" is read as intended. *)
Example price_scenario_without_dollar :
  priceStage ["$0-50"] [priced 10; priced 60; priced 200] = [priced 10].
Proof. reflexivity. Qed.

(** The reading of the bands the sidebar offers for ratings. *)
Lemma meetsRating_offered product band :
  band ∈ ratingOptions → meetsRating product band = true ↔ meetsBand product band.
Proof.
  unfold ratingOptions. rewrite !elem_of_cons, elem_of_nil.
  intros [->|[->|[->|[]]]]; unfold meetsRating, meetsBand.
  - change (minRating "5") with (JS.ofZ 5). apply ge_numLe.
  - change (minRating "4+") with (JS.ofZ 4). apply ge_numLe.
  - change (minRating "3+") with (JS.ofZ 3). apply ge_numLe.
Qed.

(** C4: with a non-empty selection of the bands "5", "4+" and "3+", the
    rating filter keeps, in their order, exactly the products whose
    rating is at least the minimum (5, 4, 3) of one selected band. *)
Theorem rating_stage_keeps_band_members (C : list Product) (R : list string) :
  R ≠ [] →
  Forall (λ band, band ∈ ratingOptions) R →
  ratingStage R C = filter (λ p, Exists (meetsBand p) R) C.
Proof.
  intros Hne HR. unfold ratingStage.
  destruct R as [|r R]; [done|]. simpl (0 <? _)%nat. cbv iota.
  rewrite Array_filter_as_filter. apply list_filter_iff. intros p.
  apply Array_some_Exists. intros band Hb.
  apply meetsRating_offered. by eapply Forall_forall in HR.
Qed.

Lemma rating_stage_keeps_band_members_witness :
  ratingStage ["4+"] [item10; item90]
  = filter (λ p, Exists (meetsBand p) ["4+"]) [item10; item90].
Proof.
  apply (rating_stage_keeps_band_members [item10; item90] ["4+"]).
  - discriminate.
  - repeat constructor; unfold ratingOptions;
      repeat first [apply list_elem_of_here | apply list_elem_of_further].
Defined.

Example rating_stage_sample : ratingStage ["4+"] [item10; item90] = [item90].
Proof. reflexivity. Qed.

(** ** The loader *)

(** The failures the chain handles: when the promise of [fetch] is
    rejected, or the body of the response cannot be read, the chain ends
    fulfilled (nothing is thrown to the caller), the loading flag is
    false, the catalog and the displayed list are empty, one line has
    been written with [console.error], and the one request of the mount
    is the only one made. *)
Lemma fetch_failure_leaves_empty_grid (reason : string) (ok : bool) (status : N) :
  (∃ w', Box (Rejected reason) initialWorld = (Fulfilled tt, w')
         ∧ loading (state w') = false
         ∧ catalog w' = []
         ∧ displayedList w' = []
         ∧ console w' = [("Error fetching products:", reason)]
         ∧ requests w' = [productsUrl])
  ∧ (∃ w', Box (Fulfilled (mkResponse ok status (Rejected reason))) initialWorld
           = (Fulfilled tt, w')
           ∧ loading (state w') = false
           ∧ catalog w' = []
           ∧ displayedList w' = []
           ∧ console w' = [("Error fetching products:", reason)]
           ∧ requests w' = [productsUrl]).
Proof.
  split; eexists; (split; [vm_compute; reflexivity|]); vm_compute; done.
Qed.

(** C6, at a response the server marks as failed: the chain never reads
    [ok] or [status], so a response with status 500 whose body parses is
    taken as a success - the catalog is filled with the body, the products
    are displayed, and nothing is written with [console.error]. *)
Theorem error_status_is_taken_as_success :
  ∃ w', Box (Fulfilled (mkResponse false 500 (Fulfilled [item90; item10]))) initialWorld
        = (Fulfilled tt, w')
        ∧ loading (state w') = false
        ∧ catalog w' = [item90; item10]
        ∧ displayedList w' = [item10; item90]
        ∧ console w' = []
        ∧ requests w' = [productsUrl].
Proof. eexists. split; [vm_compute; reflexivity|]. vm_compute. done. Qed.

(** The chain does the same whatever the response says of itself. *)
Lemma loaderReactions_ignores_status (ok ok' : bool) (status status' : N)
    (parsed : settled (list Product)) (w : World) :
  loaderReactions (Fulfilled (mkResponse ok status parsed)) w
  = loaderReactions (Fulfilled (mkResponse ok' status' parsed)) w.
Proof. reflexivity. Qed.

(** A successful load, for comparison: the catalog is the parsed array
    and the displayed list its popularity order. *)
Example fetch_success_sample :
  ∃ w', Box (Fulfilled (mkResponse true 200 (Fulfilled [item90; item10]))) initialWorld
        = (Fulfilled tt, w')
        ∧ loading (state w') = false
        ∧ catalog w' = [item90; item10]
        ∧ displayedList w' = [item10; item90]
        ∧ console w' = [].
Proof. eexists. split; [vm_compute; reflexivity|]. vm_compute. done. Qed.

(** ** The handlers *)

Section Toggle.
Implicit Types (prev : list string) (option t : string).

Lemma toggleUpdater_present option prev :
  option ∈ prev →
  toggleUpdater option prev = filter (λ item, item ≠ option) prev.
Proof.
  intros H. unfold toggleUpdater, JS.Array_includes.
  rewrite bool_decide_eq_true_2 by done.
  rewrite Array_filter_as_filter. apply list_filter_iff. intros item.
  rewrite negb_true_iff, bool_decide_eq_false. done.
Qed.

Lemma toggleUpdater_absent option prev :
  option ∉ prev → toggleUpdater option prev = (prev ++ [option])%list.
Proof.
  intros H. unfold toggleUpdater, JS.Array_includes.
  by rewrite bool_decide_eq_false_2.
Qed.

Lemma filter_absent option prev :
  option ∉ prev → filter (λ item, item ≠ option) prev = prev.
Proof.
  induction prev as [|x prev IH]; [done|].
  intros [Hx Hp]%not_elem_of_cons.
  rewrite filter_cons_True by congruence. by rewrite IH.
Qed.

Lemma toggleUpdater_twice_absent option prev :
  option ∉ prev → toggleUpdater option (toggleUpdater option prev) = prev.
Proof.
  intros H. rewrite (toggleUpdater_absent _ _ H).
  rewrite toggleUpdater_present by (apply elem_of_app; right; left).
  rewrite filter_app, filter_absent by done.
  rewrite filter_cons_False by (intros Hn; by apply Hn). by rewrite app_nil_r.
Qed.

Lemma toggleUpdater_twice_present option prev :
  option ∈ prev →
  toggleUpdater option (toggleUpdater option prev)
  = (filter (λ item, item ≠ option) prev ++ [option])%list.
Proof.
  intros H. rewrite (toggleUpdater_present _ _ H).
  apply toggleUpdater_absent. rewrite list_elem_of_filter. tauto.
Qed.

Lemma toggleUpdater_twice_elem_of option prev t :
  t ∈ toggleUpdater option (toggleUpdater option prev) ↔ t ∈ prev.
Proof.
  destruct (decide (option ∈ prev)) as [H|H].
  - rewrite toggleUpdater_twice_present by done.
    rewrite elem_of_app, list_elem_of_filter, list_elem_of_singleton.
    destruct (decide (t = option)) as [->|]; tauto.
  - by rewrite toggleUpdater_twice_absent.
Qed.

Lemma filter_present_perm option prev :
  NoDup prev → option ∈ prev →
  (filter (λ item, item ≠ option) prev ++ [option])%list ≡ₚ prev.
Proof.
  induction 1 as [|x prev Hx Hnd IH]; intros Hin; [by apply elem_of_nil in Hin|].
  destruct (decide (x = option)) as [->|Hne].
  - rewrite filter_cons_False by (intros Hn; by apply Hn).
    rewrite filter_absent by done.
    by rewrite <-Permutation_cons_append.
  - rewrite filter_cons_True by done. simpl. f_equiv. apply IH.
    apply elem_of_cons in Hin as [->|]; done.
Qed.

Lemma toggleUpdater_twice_perm option prev :
  NoDup prev → toggleUpdater option (toggleUpdater option prev) ≡ₚ prev.
Proof.
  intros Hnd. destruct (decide (option ∈ prev)) as [H|H];
    [|by rewrite toggleUpdater_twice_absent].
  rewrite toggleUpdater_twice_present by done.
  by apply filter_present_perm.
Qed.
End Toggle.

Lemma selection_handleFilterChange category option st :
  category ∈ filterNames →
  selection category (handleFilterChange category option st)
  = toggleUpdater option (selection category st).
Proof.
  unfold filterNames. rewrite !elem_of_cons, elem_of_nil.
  by intros [->|[->|[->|[]]]].
Qed.

Lemma selection_handleFilterChange_other category other option st :
  other ≠ category →
  selection other (handleFilterChange category option st) = selection other st.
Proof.
  intros Hne. unfold handleFilterChange, selection.
  repeat case_bool_decide; subst; try done.
Qed.

Lemma handleFilterChange_twice_absent category option st :
  option ∉ selection category st →
  handleFilterChange category option (handleFilterChange category option st) = st.
Proof.
  intros H. unfold handleFilterChange, selection in *.
  destruct st. repeat case_bool_decide; subst; simpl in *; try done;
    unfold withSelectedCategories, withSelectedPriceRanges, withSelectedRatings;
    simpl; by rewrite toggleUpdater_twice_absent.
Qed.

(** C7: for each of the three filter groups, one call of the handler
    removes the option from the group's selection when it is there and
    appends it when it is not, touching no other selection; a second call
    with the same pair gives the selection its original elements back
    (the very same state when the option was not selected, the same
    elements up to order when it was). *)
Theorem toggle_twice_restores_selection (category option : string) (st : State) :
  category ∈ filterNames →
  let st1 := handleFilterChange category option st in
  let st2 := handleFilterChange category option st1 in
  (∀ t, t ∈ selection category st2 ↔ t ∈ selection category st)
  ∧ (option ∈ selection category st →
     selection category st1 = filter (λ item, item ≠ option) (selection category st)
     ∧ option ∉ selection category st1)
  ∧ (option ∉ selection category st →
     selection category st1 = (selection category st ++ [option])%list
     ∧ option ∈ selection category st1)
  ∧ (∀ other, other ≠ category →
     selection other st1 = selection other st ∧ selection other st2 = selection other st)
  ∧ (option ∉ selection category st → st2 = st)
  ∧ (NoDup (selection category st) → selection category st2 ≡ₚ selection category st).
Proof.
  intros Hcat st1 st2. subst st1 st2.
  rewrite !selection_handleFilterChange by done.
  split; [|split; [|split; [|split; [|split]]]].
  - intros t. apply toggleUpdater_twice_elem_of.
  - intros Hin. rewrite toggleUpdater_present by done.
    split; [done|]. rewrite list_elem_of_filter. tauto.
  - intros Hout. rewrite toggleUpdater_absent by done.
    split; [done|]. apply elem_of_app. right. left.
  - intros other Hne. by rewrite !selection_handleFilterChange_other.
  - apply handleFilterChange_twice_absent.
  - apply toggleUpdater_twice_perm.
Qed.

Lemma toggle_twice_restores_selection_witness :
  let st := sampleState "" [] ["$0-$50"; "$200+"] [] "popularity" in
  let st1 := handleFilterChange "Price Range" "$0-$50" st in
  let st2 := handleFilterChange "Price Range" "$0-$50" st1 in
  selectedPriceRanges st1 = ["$200+"]
  ∧ selectedPriceRanges st2 = ["$200+"; "$0-$50"]
  ∧ ∀ t, t ∈ selection "Price Range" st2 ↔ t ∈ selection "Price Range" st.
Proof.
  split; [reflexivity|]. split; [reflexivity|].
  apply (toggle_twice_restores_selection "Price Range" "$0-$50"
           (sampleState "" [] ["$0-$50"; "$200+"] [] "popularity")).
  unfold filterNames. repeat first [apply list_elem_of_here | apply list_elem_of_further].
Defined.

(** C10: a call of the handler with a name that is none of "Category",
    "Price Range" and "Rating" changes nothing: the three selections, the
    search text, the sort key and every other cell are as before. *)
Theorem unknown_filter_name_is_noop (category option : string) (st : State) :
  category ∉ filterNames →
  handleFilterChange category option st = st
  ∧ selectedCategories (handleFilterChange category option st) = selectedCategories st
  ∧ selectedPriceRanges (handleFilterChange category option st) = selectedPriceRanges st
  ∧ selectedRatings (handleFilterChange category option st) = selectedRatings st
  ∧ searchTerm (handleFilterChange category option st) = searchTerm st
  ∧ sortOption (handleFilterChange category option st) = sortOption st.
Proof.
  intros Hn.
  assert (handleFilterChange category option st = st) as ->; [|done].
  unfold handleFilterChange.
  repeat case_bool_decide; try done; subst; exfalso; apply Hn; unfold filterNames;
    repeat first [apply list_elem_of_here | apply list_elem_of_further].
Qed.

Lemma unknown_filter_name_is_noop_witness :
  handleFilterChange "Brand" "4+" (sampleState "ring" ["jewelery"] [] ["5"] "rating")
  = sampleState "ring" ["jewelery"] [] ["5"] "rating".
Proof.
  apply (unknown_filter_name_is_noop "Brand" "4+"
           (sampleState "ring" ["jewelery"] [] ["5"] "rating")).
  unfold filterNames. rewrite !not_elem_of_cons. repeat split; try discriminate.
  apply not_elem_of_nil.
Defined.

(** * Further properties of the component *)

(** ** The filters together *)

Lemma guarded_filter_elem_of (b : bool) (f : Product → bool) l p :
  p ∈ (if b then JS.Array_filter l f else l) ↔ p ∈ l ∧ (b = false ∨ f p = true).
Proof.
  destruct b; [rewrite Array_filter_elem_of|]; intuition congruence.
Qed.

Lemma positive_length_false {A} (l : list A) : (0 <? length l)%nat = false ↔ l = [].
Proof. destruct l; simpl; split; done. Qed.

Lemma truthy_false s : truthy s = false ↔ s = "".
Proof.
  unfold truthy. rewrite negb_false_iff, bool_decide_eq_true. done.
Qed.

Lemma Array_some_true {A} (f : A → bool) (l : list A) :
  JS.Array_some l f = true ↔ ∃ a, a ∈ l ∧ f a = true.
Proof.
  rewrite (Array_some_Exists f (λ a, f a = true)) by done.
  rewrite Exists_exists. done.
Qed.

(** X2: a product is displayed exactly when it is in the catalog and
    passes the test of every filter group that is in use: the search
    string is empty or, lowered, occurs in its lowered title, no category
    is selected or its category is, no price band is selected or it
    passes the test of one, no rating band is selected or it passes the
    test of one. *)
Theorem displayed_elem_of (st : State) (C : list Product) (p : Product) :
  p ∈ displayed st C ↔
  p ∈ C
  ∧ (searchTerm st = ""
     ∨ ∃ pre post,
         JS.toLowerCase (title p)
         = (pre ++ JS.toLowerCase (searchTerm st) ++ post)%list)
  ∧ (selectedCategories st = [] ∨ category p ∈ selectedCategories st)
  ∧ (selectedPriceRanges st = []
     ∨ ∃ range, range ∈ selectedPriceRanges st ∧ inPriceRange p range = true)
  ∧ (selectedRatings st = []
     ∨ ∃ band, band ∈ selectedRatings st ∧ meetsRating p band = true).
Proof.
  unfold displayed, sortStage. rewrite Array_sort_perm.
  unfold ratingStage, priceStage, categoryStage, searchStage.
  rewrite !guarded_filter_elem_of.
  rewrite !positive_length_false, truthy_false.
  unfold inSelectedRatings, inSelectedPriceRanges, inSelectedCategories,
    matchesSearch, JS.Array_includes.
  rewrite !Array_some_true, includes_spec, bool_decide_eq_true.
  tauto.
Qed.

(** X3: the sort key decides the order only: under any two sort keys the
    displayed lists hold the same products, each as often. *)
Theorem sort_option_only_reorders (value : string) (st : State) (C : list Product) :
  displayed (withSortOption value st) C ≡ₚ displayed st C.
Proof.
  unfold displayed, sortStage. simpl. by rewrite !Array_sort_perm.
Qed.

Lemma sameIgnoringCase_empty (q q' : JS.text) :
  sameIgnoringCase q q' → (q = "" ↔ q' = "").
Proof.
  change (JS.ofLatin1 "") with (@nil N).
  destruct q, q'; simpl; intuition congruence.
Qed.

(** X4: for search strings made of code units below U+0100, the search
    does not see the case of their letters: two such strings that differ
    in case only select the same products, whatever the titles. *)
Theorem search_ignores_query_case (q q' : JS.text) (C : list Product) :
  latin1 q → latin1 q' →
  sameIgnoringCase q q' → searchStage q C = searchStage q' C.
Proof.
  intros Hq Hq' H. unfold searchStage, truthy, matchesSearch.
  rewrite (bool_decide_ext _ _ (sameIgnoringCase_empty q q' H)).
  apply toLowerCase_sameIgnoringCase in H; [|done..]. by rewrite H.
Qed.

Lemma search_ignores_query_case_witness :
  searchStage "Shirt" [titled "Mens Cotton SHIRT"; titled "Gold Ring"]
  = searchStage "sHIRT" [titled "Mens Cotton SHIRT"; titled "Gold Ring"]
  ∧ searchStage "Shirt" [titled "Mens Cotton SHIRT"; titled "Gold Ring"]
    = [titled "Mens Cotton SHIRT"].
Proof.
  split; [|reflexivity].
  apply (search_ignores_query_case "Shirt" "sHIRT").
  - repeat constructor.
  - repeat constructor.
  - simpl. unfold sameLetter, upperOf.
    repeat split; first [by left | right; left; vm_compute; split; [left; split; discriminate | reflexivity]
                        | right; right; vm_compute; split; [left; split; discriminate | reflexivity]].
Defined.

(** ** Filtering and sorting *)

Section FilterSort.
Context {A : Type} (key : A → JS.number).
Implicit Types (l : list A) (keep : A → bool).

Lemma StronglySorted_filter (R : relation A) (P : A → Prop) `{!∀ a, Decision (P a)} l :
  StronglySorted R l → StronglySorted R (filter P l).
Proof.
  induction 1 as [|x l Hs IH Hx]; [constructor|].
  rewrite filter_cons. destruct (decide (P x)); [|done].
  constructor; [done|].
  apply Forall_forall. intros y [_ Hy]%list_elem_of_filter.
  by eapply Forall_forall in Hx.
Qed.

Lemma Forall_Array_filter (Q : A → Prop) l keep :
  Forall Q l → Forall Q (JS.Array_filter l keep).
Proof.
  intros H. apply Forall_forall. intros x [Hx _]%Array_filter_elem_of.
  by eapply Forall_forall in H.
Qed.

Lemma ties_filter l out keep :
  tiesInEncounterOrder key l out →
  tiesInEncounterOrder key (JS.Array_filter l keep) (JS.Array_filter out keep).
Proof.
  intros H k. rewrite !Array_filter_as_filter, !list_filter_filter.
  rewrite !(list_filter_iff (λ a, key a = k ∧ keep a = true)
              (λ a, keep a = true ∧ key a = k)) by (intros; tauto).
  rewrite <-!(list_filter_filter (λ a, keep a = true) (λ a, key a = k)).
  by rewrite H.
Qed.

Lemma stableAscending_filter l out keep :
  stableAscending key l out →
  stableAscending key (JS.Array_filter l keep) (JS.Array_filter out keep).
Proof.
  intros (Hp & Hs & Ht). split; [|split].
  - rewrite !Array_filter_as_filter. by rewrite Hp.
  - unfold ascendingBy. rewrite Array_filter_as_filter. by apply StronglySorted_filter.
  - by apply ties_filter.
Qed.

Lemma stableDescending_filter l out keep :
  stableDescending key l out →
  stableDescending key (JS.Array_filter l keep) (JS.Array_filter out keep).
Proof.
  intros (Hp & Hs & Ht). split; [|split].
  - rewrite !Array_filter_as_filter. by rewrite Hp.
  - unfold descendingBy. rewrite Array_filter_as_filter. by apply StronglySorted_filter.
  - by apply ties_filter.
Qed.

(** Sorting what a filter kept, or filtering what was sorted: the same
    list. *)
Lemma sort_ascending_filter l keep :
  Forall (comparableBy key) l →
  JS.Array_sort (λ a b, JS.sub (key a) (key b)) (JS.Array_filter l keep)
  = JS.Array_filter (JS.Array_sort (λ a b, JS.sub (key a) (key b)) l) keep.
Proof.
  intros Hl. apply (stableAscending_unique key (JS.Array_filter l keep)).
  - apply sort_stableAscending. by apply Forall_Array_filter.
  - apply stableAscending_filter. by apply sort_stableAscending.
Qed.

Lemma sort_descending_filter l keep :
  Forall (comparableBy key) l →
  JS.Array_sort (λ a b, JS.sub (key b) (key a)) (JS.Array_filter l keep)
  = JS.Array_filter (JS.Array_sort (λ a b, JS.sub (key b) (key a)) l) keep.
Proof.
  intros Hl. apply (stableDescending_unique key (JS.Array_filter l keep)).
  - apply sort_stableDescending. by apply Forall_Array_filter.
  - apply stableDescending_filter. by apply sort_stableDescending.
Qed.
End FilterSort.

Lemma guarded_filter_as_filter {A} (b : bool) (f : A → bool) (l : list A) :
  (if b then JS.Array_filter l f else l) = JS.Array_filter l (λ a, negb b || f a).
Proof.
  destruct b; simpl; [done|].
  unfold JS.Array_filter. induction l as [|x l IH]; simpl; [done|]. by rewrite <-IH.
Qed.

Lemma Array_filter_twice {A} (f g : A → bool) (l : list A) :
  JS.Array_filter (JS.Array_filter l f) g = JS.Array_filter l (λ a, f a && g a).
Proof.
  unfold JS.Array_filter. induction l as [|x l IH]; simpl; [done|].
  destruct (f x); simpl; [|done]. destruct (g x); by rewrite IH.
Qed.

Lemma Array_filter_ext {A} (f g : A → bool) (l : list A) :
  (∀ a, f a = g a) → JS.Array_filter l f = JS.Array_filter l g.
Proof.
  intros H. unfold JS.Array_filter. induction l as [|x l IH]; simpl; [done|].
  by rewrite H, IH.
Qed.

(** The four filter blocks are one filter, by the conjunction of their
    guarded tests. *)
Lemma filtered_as_filter st l : filtered st l = JS.Array_filter l (passesFilters st).
Proof.
  unfold filtered, ratingStage, priceStage, categoryStage, searchStage.
  rewrite !guarded_filter_as_filter, !Array_filter_twice.
  apply Array_filter_ext. intros a. unfold passesFilters. by rewrite !andb_assoc.
Qed.

Lemma sortStage_filter sortOption keep l :
  Forall wellFormed l →
  sortStage sortOption (JS.Array_filter l keep)
  = JS.Array_filter (sortStage sortOption l) keep.
Proof.
  intros Hwf.
  assert (Forall (comparableBy price) l
          ∧ Forall (comparableBy (λ p, rate (rating p))) l
          ∧ Forall (comparableBy (λ p, count (rating p))) l) as (Hp & Hr & Hc).
  { repeat split; eapply Forall_impl; try exact Hwf; by intros p (? & ? & ?). }
  unfold sortStage, comparator. repeat case_bool_decide.
  - by apply (sort_ascending_filter price).
  - by apply (sort_descending_filter price).
  - by apply (sort_descending_filter (λ p, rate (rating p))).
  - by apply (sort_descending_filter (λ p, count (rating p))).
Qed.

(** X5: filtering never reorders.  On a catalog of well-formed products
    the displayed list is the sorted catalog with the products that fail
    a filter taken out: the same list whether the filters run before the
    sort, as in the source, or after it. *)
Theorem filters_commute_with_sort (st : State) (C : list Product) :
  Forall wellFormed C →
  displayed st C = filtered st (sortStage (sortOption st) C)
  ∧ displayed st C `sublist_of` sortStage (sortOption st) C.
Proof.
  intros Hwf.
  assert (displayed st C = filtered st (sortStage (sortOption st) C)) as ->.
  { change (displayed st C) with (sortStage (sortOption st) (filtered st C)).
    rewrite !filtered_as_filter. by apply sortStage_filter. }
  split; [done|]. rewrite filtered_as_filter. apply Array_filter_sublist.
Qed.

Lemma filters_commute_with_sort_witness :
  displayed (sampleState "" [] [] ["4+"] "price-high-low") [item10; item90; priced 60]
  = filtered (sampleState "" [] [] ["4+"] "price-high-low")
      (sortStage "price-high-low" [item10; item90; priced 60])
  ∧ displayed (sampleState "" [] [] ["4+"] "price-high-low") [item10; item90; priced 60]
    `sublist_of` sortStage "price-high-low" [item10; item90; priced 60].
Proof.
  apply (filters_commute_with_sort (sampleState "" [] [] ["4+"] "price-high-low")
           [item10; item90; priced 60]).
  repeat constructor; discriminate.
Defined.

(** ** Rating bands together *)

Lemma meetsRating_five_four product :
  meetsRating product "5" = true → meetsRating product "4+" = true.
Proof.
  unfold meetsRating. change (minRating "5") with (JS.ofZ 5).
  change (minRating "4+") with (JS.ofZ 4). rewrite !ge_numLe.
  apply numLe_trans. vm_compute. discriminate.
Qed.

Lemma meetsRating_four_three product :
  meetsRating product "4+" = true → meetsRating product "3+" = true.
Proof.
  unfold meetsRating. change (minRating "4+") with (JS.ofZ 4).
  change (minRating "3+") with (JS.ofZ 3). rewrite !ge_numLe.
  apply numLe_trans. vm_compute. discriminate.
Qed.

Lemma ratingStage_single (R : list string) (band : string) C :
  band ∈ R →
  (∀ p b, b ∈ R → meetsRating p b = true → meetsRating p band = true) →
  ratingStage R C = ratingStage [band] C.
Proof.
  intros Hin Himp. unfold ratingStage.
  destruct R as [|r R]; [by apply elem_of_nil in Hin|].
  simpl (0 <? _)%nat. cbv iota.
  apply Array_filter_ext. intros p. apply eq_true_iff_eq.
  unfold inSelectedRatings. rewrite !Array_some_true. split.
  - intros (b & Hb & Hm). exists band. split; [left|]. by eapply Himp.
  - intros (b & Hb & Hm). apply list_elem_of_singleton in Hb as ->. by exists band.
Qed.

(** X6: several rating bands selected together act as the lowest of
    them alone: with "3+" among them the filter is that of "3+", without
    it and with "4+" that of "4+", and with "5" alone that of "5". *)
Theorem rating_selection_is_lowest_band (C : list Product) (R : list string) :
  Forall (λ band, band ∈ ratingOptions) R →
  ("3+" ∈ R → ratingStage R C = ratingStage ["3+"] C)
  ∧ ("3+" ∉ R → "4+" ∈ R → ratingStage R C = ratingStage ["4+"] C)
  ∧ ("3+" ∉ R → "4+" ∉ R → R ≠ [] → ratingStage R C = ratingStage ["5"] C).
Proof.
  intros HR.
  assert (∀ b, b ∈ R → b = "5" ∨ b = "4+" ∨ b = "3+") as Hopts.
  { intros b Hb. eapply Forall_forall in HR; [|exact Hb].
    unfold ratingOptions in HR. rewrite !elem_of_cons, elem_of_nil in HR. tauto. }
  split; [|split].
  - intros H3. apply ratingStage_single; [done|].
    intros p b Hb Hm. destruct (Hopts b Hb) as [-> | [-> | ->]]; [| |done].
    + by apply meetsRating_four_three, meetsRating_five_four.
    + by apply meetsRating_four_three.
  - intros H3 H4. apply ratingStage_single; [done|].
    intros p b Hb Hm. destruct (Hopts b Hb) as [-> | [-> | ->]]; [|done|done].
    by apply meetsRating_five_four.
  - intros H3 H4 Hne.
    assert ("5" ∈ R) as H5.
    { destruct R as [|b R]; [done|].
      destruct (Hopts b) as [-> | [-> | ->]]; [left|left| |].
      - exfalso. apply H4. left.
      - exfalso. apply H3. left. }
    apply ratingStage_single; [done|].
    intros p b Hb Hm. destruct (Hopts b Hb) as [-> | [-> | ->]]; done.
Qed.

Lemma rating_selection_is_lowest_band_witness :
  ratingStage ["5"; "3+"; "4+"] [item10; item90] = ratingStage ["3+"] [item10; item90].
Proof.
  apply (rating_selection_is_lowest_band [item10; item90] ["5"; "3+"; "4+"]).
  - repeat constructor; unfold ratingOptions;
      repeat first [apply list_elem_of_here | apply list_elem_of_further].
  - repeat first [apply list_elem_of_here | apply list_elem_of_further].
Defined.

(** ** One more box in a group *)

Lemma Array_filter_mono {A} (f g : A → bool) (l : list A) :
  (∀ a, f a = true → g a = true) →
  JS.Array_filter l f `sublist_of` JS.Array_filter l g.
Proof.
  intros H. unfold JS.Array_filter. induction l as [|x l IH]; simpl; [done|].
  destruct (f x) eqn:Ef.
  - rewrite (H x Ef). by apply sublist_skip.
  - destruct (g x); [by apply sublist_cons | done].
Qed.

Lemma Array_some_snoc {A} (f : A → bool) (l : list A) (x : A) :
  JS.Array_some l f = true → JS.Array_some (l ++ [x]) f = true.
Proof.
  rewrite !Array_some_true. intros (a & Ha & Hf). exists a.
  split; [|done]. apply elem_of_app. by left.
Qed.

Lemma positive_length_snoc {A} (l : list A) (x : A) :
  l ≠ [] → (0 <? length l)%nat = true ∧ (0 <? length (l ++ [x]))%nat = true.
Proof. destruct l; [done|]. by simpl. Qed.

(** X7: in a group where a box is checked already, checking one more
    never takes a product out of the list: what the stage keeps for the
    selection it keeps for the selection with one more option. *)
Theorem one_more_option_keeps_more (sel : list string) (option : string)
    (C : list Product) :
  sel ≠ [] →
  categoryStage sel C `sublist_of` categoryStage (sel ++ [option]) C
  ∧ priceStage sel C `sublist_of` priceStage (sel ++ [option]) C
  ∧ ratingStage sel C `sublist_of` ratingStage (sel ++ [option]) C.
Proof.
  intros Hne. unfold categoryStage, priceStage, ratingStage.
  destruct (positive_length_snoc sel option Hne) as [-> ->].
  split; [|split]; apply Array_filter_mono; intros p.
  - unfold inSelectedCategories, JS.Array_includes.
    rewrite !bool_decide_eq_true, elem_of_app. tauto.
  - apply Array_some_snoc.
  - apply Array_some_snoc.
Qed.

Lemma one_more_option_keeps_more_witness :
  (categoryStage ["jewelery"] [shirt; ring] = [ring]
   ∧ categoryStage (["jewelery"] ++ ["men's clothing"]) [shirt; ring] = [shirt; ring]
   ∧ categoryStage ["jewelery"] [shirt; ring]
     `sublist_of` categoryStage (["jewelery"] ++ ["men's clothing"]) [shirt; ring])
  ∧ (priceStage ["$50-60"] [shirt; ring] = [ring]
     ∧ priceStage (["$50-60"] ++ ["$0-10"]) [shirt; ring] = [shirt; ring]
     ∧ priceStage ["$50-60"] [shirt; ring]
       `sublist_of` priceStage (["$50-60"] ++ ["$0-10"]) [shirt; ring])
  ∧ (ratingStage ["4+"] [shirt; ring] = [ring]
     ∧ ratingStage (["4+"] ++ ["3+"]) [shirt; ring] = [shirt; ring]
     ∧ ratingStage ["4+"] [shirt; ring]
       `sublist_of` ratingStage (["4+"] ++ ["3+"]) [shirt; ring]).
Proof.
  split; [|split]; (split; [reflexivity|]); (split; [reflexivity|]).
  - apply (one_more_option_keeps_more ["jewelery"] "men's clothing" [shirt; ring]).
    discriminate.
  - apply (one_more_option_keeps_more ["$50-60"] "$0-10" [shirt; ring]).
    discriminate.
  - apply (one_more_option_keeps_more ["4+"] "3+" [shirt; ring]).
    discriminate.
Defined.

(** ** The checkboxes *)

Section Checkboxes.
Implicit Types (prev : list string) (option name : string) (st : State).

Lemma toggleUpdater_NoDup option prev : NoDup prev → NoDup (toggleUpdater option prev).
Proof.
  intros Hnd. destruct (decide (option ∈ prev)) as [H|H].
  - rewrite toggleUpdater_present by done. by apply NoDup_filter.
  - rewrite toggleUpdater_absent by done.
    apply NoDup_app. split; [done|]. split; [|apply NoDup_singleton].
    intros x Hx ->%list_elem_of_singleton. done.
Qed.

Lemma toggleUpdater_subseteq option prev (offer : list string) :
  option ∈ offer → prev ⊆ offer → toggleUpdater option prev ⊆ offer.
Proof.
  intros Ho Hp x. destruct (decide (option ∈ prev)) as [H|H].
  - rewrite toggleUpdater_present by done.
    intros [_ Hx]%list_elem_of_filter. by apply Hp.
  - rewrite toggleUpdater_absent by done.
    intros [Hx| ->%list_elem_of_singleton]%elem_of_app; [by apply Hp | done].
Qed.

Lemma Array_includes_toggleUpdater option option' prev :
  JS.Array_includes (toggleUpdater option prev) option'
  = if bool_decide (option' = option) then negb (JS.Array_includes prev option)
    else JS.Array_includes prev option'.
Proof.
  destruct (decide (option' = option)) as [->|Hne].
  - rewrite bool_decide_eq_true_2 by done.
    destruct (decide (option ∈ prev)) as [H|H].
    + rewrite toggleUpdater_present by done. unfold JS.Array_includes.
      rewrite (bool_decide_eq_true_2 _ H). simpl. apply bool_decide_eq_false.
      rewrite list_elem_of_filter. tauto.
    + rewrite toggleUpdater_absent by done. unfold JS.Array_includes.
      rewrite (bool_decide_eq_false_2 _ H). simpl. apply bool_decide_eq_true.
      apply elem_of_app. right. left.
  - rewrite bool_decide_eq_false_2 by done.
    destruct (decide (option ∈ prev)) as [H|H].
    + rewrite toggleUpdater_present by done. unfold JS.Array_includes.
      apply bool_decide_ext. rewrite list_elem_of_filter. tauto.
    + rewrite toggleUpdater_absent by done. unfold JS.Array_includes.
      apply bool_decide_ext. rewrite elem_of_app, list_elem_of_singleton. tauto.
Qed.

Lemma isChecked_selection name option st :
  name ∈ filterNames →
  isChecked name option st = JS.Array_includes (selection name st) option.
Proof.
  unfold filterNames. rewrite !elem_of_cons, elem_of_nil.
  by intros [-> | [-> | [-> | []]]].
Qed.

(** X8: a click on a checkbox flips that checkbox and no other: after
    [handleFilterChange(name, option)] the box of [option] in the group
    [name] is checked exactly if it was not, and every other box of the
    three groups is as it was. *)
Theorem checkbox_click_flips_one_box name option st :
  name ∈ filterNames →
  isChecked name option (handleFilterChange name option st)
  = negb (isChecked name option st)
  ∧ ∀ name' option',
      name' ∈ filterNames → (name', option') ≠ (name, option) →
      isChecked name' option' (handleFilterChange name option st)
      = isChecked name' option' st.
Proof.
  intros Hn. split.
  - rewrite !isChecked_selection, selection_handleFilterChange by done.
    rewrite Array_includes_toggleUpdater. by rewrite bool_decide_eq_true_2.
  - intros name' option' Hn' Hne. rewrite !isChecked_selection by done.
    destruct (decide (name' = name)) as [->|Hname].
    + rewrite selection_handleFilterChange by done.
      rewrite Array_includes_toggleUpdater.
      rewrite bool_decide_eq_false_2; [done|]. intros ->. by apply Hne.
    + by rewrite selection_handleFilterChange_other.
Qed.

Lemma checkbox_click_flips_one_box_witness :
  isChecked "Rating" "4+"
    (handleFilterChange "Rating" "4+" (sampleState "" [] [] ["5"; "4+"] "rating"))
  = negb (isChecked "Rating" "4+" (sampleState "" [] [] ["5"; "4+"] "rating"))
  ∧ ∀ name' option',
      name' ∈ filterNames → (name', option') ≠ ("Rating", "4+") →
      isChecked name' option'
        (handleFilterChange "Rating" "4+" (sampleState "" [] [] ["5"; "4+"] "rating"))
      = isChecked name' option' (sampleState "" [] [] ["5"; "4+"] "rating").
Proof.
  apply (checkbox_click_flips_one_box "Rating" "4+"
           (sampleState "" [] [] ["5"; "4+"] "rating")).
  unfold filterNames. repeat first [apply list_elem_of_here | apply list_elem_of_further].
Defined.

(** X9: clicks in two different groups do not depend on their order. *)
Theorem clicks_in_two_groups_commute name1 option1 name2 option2 st :
  name1 ≠ name2 →
  handleFilterChange name1 option1 (handleFilterChange name2 option2 st)
  = handleFilterChange name2 option2 (handleFilterChange name1 option1 st).
Proof.
  intros Hne. unfold handleFilterChange.
  repeat case_bool_decide; subst; done.
Qed.

Lemma clicks_in_two_groups_commute_witness :
  handleFilterChange "Rating" "4+"
    (handleFilterChange "Category" "jewelery" (sampleState "" [] [] ["5"] "rating"))
  = handleFilterChange "Category" "jewelery"
      (handleFilterChange "Rating" "4+" (sampleState "" [] [] ["5"] "rating")).
Proof.
  apply (clicks_in_two_groups_commute "Rating" "4+" "Category" "jewelery"). discriminate.
Defined.

Lemma handle_wellKept e st : offered e → wellKept st → wellKept (handle e st).
Proof.
  intros He (Hc & Hp & Hr & Sc & Sp & Sr & Hs).
  destruct e as [category option|value|value|]; simpl in *.
  - unfold checkboxes in He. simpl in He.
    rewrite !elem_of_cons, elem_of_nil in He.
    unfold wellKept.
    destruct He as [He|[He|[He|[He|[He|[He|[He|[He|[He|[He|[He|[]]]]]]]]]]]];
      injection He as -> ->; simpl;
      repeat split; try done;
      first [ by apply toggleUpdater_NoDup
            | apply toggleUpdater_subseteq; [|done];
              unfold categories, priceRangeOptions, ratingOptions;
              repeat first [apply list_elem_of_here | apply list_elem_of_further] ].
  - by repeat split.
  - by repeat split.
  - unfold wellKept. simpl. repeat split; try apply NoDup_nil_2;
      try (intros x Hx; by apply elem_of_nil in Hx).
    unfold sortOptions. left.
Qed.

Lemma initialState_wellKept : wellKept initialState.
Proof.
  unfold wellKept. simpl. repeat split; try apply NoDup_nil_2;
    try (intros x Hx; by apply elem_of_nil in Hx).
  unfold sortOptions. left.
Qed.

Lemma handleAll_wellKept es st :
  Forall offered es → wellKept st → wellKept (handleAll es st).
Proof.
  intros Hes. revert st. induction Hes as [|e es He Hes IH]; intros st Hst; [done|].
  simpl. apply IH. by apply handle_wellKept.
Qed.

(** X10: whatever the user does on the page, from the first render on,
    each selection holds an option once at most and holds options of its
    own group only, and the sort key is one of the four values of the
    select. *)
Theorem page_actions_keep_selections_tidy (es : list Event) :
  Forall offered es →
  NoDup (selectedCategories (handleAll es initialState))
  ∧ NoDup (selectedPriceRanges (handleAll es initialState))
  ∧ NoDup (selectedRatings (handleAll es initialState))
  ∧ selectedCategories (handleAll es initialState) ⊆ categories
  ∧ selectedPriceRanges (handleAll es initialState) ⊆ priceRangeOptions
  ∧ selectedRatings (handleAll es initialState) ⊆ ratingOptions
  ∧ sortOption (handleAll es initialState) ∈ sortOptions.
Proof.
  intros Hes. apply (handleAll_wellKept es initialState Hes initialState_wellKept).
Qed.

Lemma page_actions_keep_selections_tidy_witness :
  NoDup (selectedCategories
           (handleAll [FilterChange "Rating" "4+"; SearchInput "ring";
                       FilterChange "Rating" "4+"; FilterChange "Category" "jewelery"]
              initialState))
  ∧ NoDup (selectedPriceRanges
           (handleAll [FilterChange "Rating" "4+"; SearchInput "ring";
                       FilterChange "Rating" "4+"; FilterChange "Category" "jewelery"]
              initialState))
  ∧ NoDup (selectedRatings
           (handleAll [FilterChange "Rating" "4+"; SearchInput "ring";
                       FilterChange "Rating" "4+"; FilterChange "Category" "jewelery"]
              initialState))
  ∧ selectedCategories
      (handleAll [FilterChange "Rating" "4+"; SearchInput "ring";
                  FilterChange "Rating" "4+"; FilterChange "Category" "jewelery"]
         initialState) ⊆ categories
  ∧ selectedPriceRanges
      (handleAll [FilterChange "Rating" "4+"; SearchInput "ring";
                  FilterChange "Rating" "4+"; FilterChange "Category" "jewelery"]
         initialState) ⊆ priceRangeOptions
  ∧ selectedRatings
      (handleAll [FilterChange "Rating" "4+"; SearchInput "ring";
                  FilterChange "Rating" "4+"; FilterChange "Category" "jewelery"]
         initialState) ⊆ ratingOptions
  ∧ sortOption
      (handleAll [FilterChange "Rating" "4+"; SearchInput "ring";
                  FilterChange "Rating" "4+"; FilterChange "Category" "jewelery"]
         initialState) ∈ sortOptions.
Proof.
  apply (page_actions_keep_selections_tidy
           [FilterChange "Rating" "4+"; SearchInput "ring";
            FilterChange "Rating" "4+"; FilterChange "Category" "jewelery"]).
  repeat constructor; simpl; unfold checkboxes; simpl;
    repeat first [apply list_elem_of_here | apply list_elem_of_further].
Defined.

Lemma priceStage_offered_nil (sel : list string) (l : list Product) :
  sel ≠ [] → sel ⊆ priceRangeOptions → priceStage sel l = [].
Proof.
  intros Hne Hsel. unfold priceStage.
  destruct sel as [|r sel]; [done|]. simpl (0 <? _)%nat. cbv iota.
  apply Array_filter_none. intros p.
  apply Array_some_none. intros range Hr.
  apply inPriceRange_offered. by apply Hsel.
Qed.

(** X11: on the page, a checked price box empties the grid: after any
    series of actions that leaves a price band selected, the displayed
    list is empty for every catalog. *)
Theorem checked_price_box_empties_grid (es : list Event) (C : list Product) :
  Forall offered es →
  selectedPriceRanges (handleAll es initialState) ≠ [] →
  displayed (handleAll es initialState) C = [].
Proof.
  intros Hes Hne.
  destruct (handleAll_wellKept es initialState Hes initialState_wellKept)
    as (_ & _ & _ & _ & Sp & _ & _).
  unfold displayed. rewrite priceStage_offered_nil by done.
  unfold ratingStage. by destruct (0 <? _)%nat.
Qed.

Lemma checked_price_box_empties_grid_witness :
  displayed
    (handleAll [FilterChange "Price Range" "$0-$50"; SortSelect "rating"] initialState)
    [item10; item90] = [].
Proof.
  apply (checked_price_box_empties_grid
           [FilterChange "Price Range" "$0-$50"; SortSelect "rating"] [item10; item90]).
  - repeat constructor; simpl; unfold checkboxes, sortOptions; simpl;
      repeat first [apply list_elem_of_here | apply list_elem_of_further].
  - discriminate.
Defined.
End Checkboxes.

(** ** The pass and the loader in any state *)

(** X12: a pass writes one cell of the state, [filteredProducts], and
    points it at an array that did not exist before; it sends no request
    and logs nothing, and it shows no more products than the catalog
    has. *)
Theorem pass_writes_displayed_list_only (w : World) :
  ∃ result w',
    filterSortEffect w = (tt, w')
    ∧ state w' = withFilteredProducts result (state w)
    ∧ heap w !! result = None
    ∧ requests w' = requests w
    ∧ console w' = console w
    ∧ (showing w' ≤ length (catalog w))%nat.
Proof.
  destruct (filterSortEffect_run w)
    as (result & w' & Hrun & Hst & Hrq & Hco & Hres & Hnew & _).
  exists result, w'. repeat split; try done.
  unfold showing, displayedList, arrayAt. rewrite Hst. simpl. rewrite Hres. simpl.
  apply submseteq_length, displayed_submseteq.
Qed.

(** X13: the pass keeps nothing from one run to the next: run twice in a
    row it displays the second time what it displayed the first, and the
    catalog is still the one it started from. *)
Theorem pass_twice_displays_the_same (w : World) (C : list Product) :
  heap w !! products (state w) = Some C →
  ∃ w1 w2,
    filterSortEffect w = (tt, w1)
    ∧ filterSortEffect w1 = (tt, w2)
    ∧ displayedList w2 = displayedList w1
    ∧ catalog w2 = C.
Proof.
  intros HC.
  destruct (filterSortEffect_run w)
    as (r1 & w1 & Hrun1 & Hst1 & _ & _ & Hres1 & _ & Hold1).
  destruct (filterSortEffect_run w1)
    as (r2 & w2 & Hrun2 & Hst2 & _ & _ & Hres2 & _ & Hold2).
  assert (heap w1 !! products (state w1) = Some C) as HC1.
  { rewrite Hst1. simpl. rewrite Hold1 by eauto. done. }
  assert (catalog w = C) as Hc by (unfold catalog, arrayAt; by rewrite HC).
  assert (catalog w1 = C) as Hc1 by (unfold catalog, arrayAt; by rewrite HC1).
  exists w1, w2. repeat split; try done.
  - unfold displayedList, arrayAt. rewrite Hst2, Hst1. simpl.
    rewrite Hres2, Hres1, Hc, Hc1, Hst1. done.
  - unfold catalog, arrayAt. rewrite Hst2. simpl.
    rewrite Hold2 by eauto. by rewrite HC1.
Qed.

Lemma pass_twice_displays_the_same_witness :
  ∃ w1 w2,
    filterSortEffect
      (sampleWorld [item90; item10] (sampleState "" [] [] ["4+"] "price-low-high"))
    = (tt, w1)
    ∧ filterSortEffect w1 = (tt, w2)
    ∧ displayedList w2 = displayedList w1
    ∧ catalog w2 = [item90; item10].
Proof.
  apply (pass_twice_displays_the_same
           (sampleWorld [item90; item10] (sampleState "" [] [] ["4+"] "price-low-high"))).
  reflexivity.
Defined.

(** X14: the reset link, in any state: search string, selections and
    sort key are back at their first values, the loading flag and the
    catalog are untouched, and the pass that follows displays the whole
    catalog in popularity order. *)
Theorem reset_shows_whole_catalog (w : World) :
  Forall (comparableBy (λ p, count (rating p))) (catalog w) →
  ∃ w', dispatch Reset w = (tt, w')
        ∧ searchTerm (state w') = ""
        ∧ selectedCategories (state w') = []
        ∧ selectedPriceRanges (state w') = []
        ∧ selectedRatings (state w') = []
        ∧ sortOption (state w') = "popularity"
        ∧ loading (state w') = loading (state w)
        ∧ products (state w') = products (state w)
        ∧ stableDescending (λ p, count (rating p)) (catalog w) (displayedList w').
Proof.
  intros Hwf.
  set (w1 := mkWorld (heap w) (handleReset (state w)) (requests w) (console w)).
  destruct (filterSortEffect_run w1)
    as (result & w' & Hrun & Hst & _ & _ & Hres & _ & _).
  exists w'. split.
  { unfold dispatch. by rewrite (bind_run _ _ w tt w1). }
  rewrite Hst. simpl. do 7 (split; [done|]).
  unfold displayedList, arrayAt. rewrite Hst. simpl. rewrite Hres. simpl.
  change (displayed (state w1) (catalog w1))
    with (JS.Array_sort byPopularity (catalog w)).
  by apply (sort_stableDescending (λ p, count (rating p))) .
Qed.

Lemma reset_shows_whole_catalog_witness :
  ∃ w', dispatch Reset
          (sampleWorld [item90; item10] (sampleState "ring" ["c"] ["$200+"] ["5"] "rating"))
        = (tt, w')
        ∧ searchTerm (state w') = ""
        ∧ selectedCategories (state w') = []
        ∧ selectedPriceRanges (state w') = []
        ∧ selectedRatings (state w') = []
        ∧ sortOption (state w') = "popularity"
        ∧ loading (state w') = false
        ∧ products (state w') = 1%positive
        ∧ stableDescending (λ p, count (rating p)) [item90; item10] (displayedList w').
Proof.
  apply (reset_shows_whole_catalog
           (sampleWorld [item90; item10]
              (sampleState "ring" ["c"] ["$200+"] ["5"] "rating"))).
  repeat constructor; discriminate.
Defined.

(** X15: a failed request, in any state the user has brought the page
    to: the chain ends fulfilled, the loading flag is cleared, one line is
    logged, and nothing else changes - the selections, the catalog, the
    displayed list and the arrays are those of before, and the pass is
    not run again. *)
Theorem failure_clears_loading_only (w : World) (reason : string)
    (ok : bool) (status : N) :
  settle loaderReactions (Rejected reason) w
  = (Fulfilled tt,
     mkWorld (heap w) (withLoading false (state w)) (requests w)
       (console w ++ [("Error fetching products:", reason)]))
  ∧ settle loaderReactions (Fulfilled (mkResponse ok status (Rejected reason))) w
    = (Fulfilled tt,
       mkWorld (heap w) (withLoading false (state w)) (requests w)
         (console w ++ [("Error fetching products:", reason)])).
Proof.
  split; unfold settle, loaderReactions, catch_, then_, json, bind, ret, resolve,
    console_error, setLoading, setState, getState; simpl;
    by rewrite bool_decide_eq_true_2.
Qed.

(** X16: a successful load, in any state the user has brought the page
    to while it was loading: the parsed array becomes the catalog, in the
    order it came, the loading flag is cleared, nothing is logged, and
    the pass that follows displays that catalog under the search string,
    selections and sort key of the moment. *)
Theorem success_shows_loaded_catalog (w : World) (data : list Product)
    (ok : bool) (status : N) :
  is_Some (heap w !! products (state w)) →
  ∃ w', settle loaderReactions (Fulfilled (mkResponse ok status (Fulfilled data))) w
        = (Fulfilled tt, w')
        ∧ loading (state w') = false
        ∧ catalog w' = data
        ∧ displayedList w' = displayed (state w) data
        ∧ products (state w') ≠ filteredProducts (state w')
        ∧ heap w !! products (state w') = None
        ∧ console w' = console w
        ∧ requests w' = requests w.
Proof.
  intros Hsome.
  set (l := fresh (dom (heap w))).
  assert (heap w !! l = None) as Hfresh by apply not_elem_of_dom, is_fresh.
  set (w1 := mkWorld (<[l := data]> (heap w))
               (withLoading false (withFilteredProducts l (withProducts l (state w))))
               (requests w) (console w)).
  assert (loaderReactions (Fulfilled (mkResponse ok status (Fulfilled data))) w
          = (Fulfilled tt, w1)) as Hchain.
  { reflexivity. }
  assert (heap w1 !! l = Some data) as Hl by apply lookup_insert_eq.
  destruct (filterSortEffect_run w1)
    as (result & w' & Hrun & Hst & Hrq & Hco & Hres & Hnone & Hold).
  exists w'. split.
  { unfold settle.
    rewrite (bind_run getState _ w (state w) w) by done.
    rewrite (bind_run _ _ w _ w1 Hchain).
    rewrite (bind_run getState _ w1 (state w1) w1) by done.
    simpl products at 1.
    rewrite bool_decide_eq_false_2.
    - by rewrite (bind_run _ _ w1 tt w' Hrun).
    - intros ->. destruct Hsome as [x Hx]. congruence. }
  assert (heap w' !! l = Some data) as Hl'.
  { rewrite Hold by (rewrite Hl; eauto). exact Hl. }
  assert (catalog w1 = data) as Hc1.
  { unfold catalog, arrayAt. change (products (state w1)) with l. by rewrite Hl. }
  rewrite Hst. simpl. repeat split; try done.
  - unfold catalog, arrayAt. rewrite Hst. simpl. by rewrite Hl'.
  - unfold displayedList, arrayAt. rewrite Hst. simpl. rewrite Hres, Hc1. done.
  - intros ->. congruence.
Qed.

Lemma success_shows_loaded_catalog_witness :
  ∃ w', settle loaderReactions
          (Fulfilled (mkResponse true 200 (Fulfilled [item90; item10])))
          (sampleWorld [] (sampleState "" [] [] ["4+"] "popularity"))
        = (Fulfilled tt, w')
        ∧ loading (state w') = false
        ∧ catalog w' = [item90; item10]
        ∧ displayedList w'
          = displayed (sampleState "" [] [] ["4+"] "popularity") [item90; item10]
        ∧ products (state w') ≠ filteredProducts (state w')
        ∧ heap (sampleWorld [] (sampleState "" [] [] ["4+"] "popularity"))
            !! products (state w') = None
        ∧ console w' = []
        ∧ requests w' = [].
Proof.
  apply (success_shows_loaded_catalog
           (sampleWorld [] (sampleState "" [] [] ["4+"] "popularity"))
           [item90; item10] true 200).
  by eexists.
Defined.

(** ** Series of actions *)

Lemma handleReset_handle e st : handleReset (handle e st) = handleReset st.
Proof.
  destruct e as [category option| | |]; simpl; try done.
  unfold handleFilterChange. by repeat case_bool_decide.
Qed.

(** X17: the reset link forgets whatever was done before it: after any
    series of actions it gives the state it would have given at once (so
    a second reset changes nothing). *)
Theorem reset_forgets_earlier_actions (es : list Event) (st : State) :
  handleReset (handleAll es st) = handleReset st.
Proof.
  revert st. induction es as [|e es IH]; intros st; [done|].
  simpl. by rewrite IH, handleReset_handle.
Qed.

(** X18: however many actions follow one another, each with the pass it
    triggers, the catalog array holds what it held at the start, and the
    list displayed at the end is drawn from it, no product more often
    than the catalog has it. *)
Theorem actions_never_touch_catalog (es : list Event) (w : World) (C : list Product) :
  heap w !! products (state w) = Some C →
  ∃ w', dispatchAll es w = (tt, w')
        ∧ heap w' !! products (state w') = Some C
        ∧ (es ≠ [] → displayedList w' ⊆+ C).
Proof. apply dispatchAll_catalog. Qed.

Lemma actions_never_touch_catalog_witness :
  ∃ w', dispatchAll [SortSelect "price-low-high"; FilterChange "Rating" "4+"; Reset]
          (sampleWorld [item90; item10] (sampleState "" [] [] [] "popularity"))
        = (tt, w')
        ∧ heap w' !! products (state w') = Some [item90; item10]
        ∧ ([SortSelect "price-low-high"; FilterChange "Rating" "4+"; Reset] ≠ [] →
           displayedList w' ⊆+ [item90; item10]).
Proof.
  apply (actions_never_touch_catalog
           [SortSelect "price-low-high"; FilterChange "Rating" "4+"; Reset]
           (sampleWorld [item90; item10] (sampleState "" [] [] [] "popularity"))
           [item90; item10]).
  reflexivity.
Defined.
